(** * I2C transport of the SH2 sensor hub: the bus state machine of
      [app/i2c_hal.c] and its two personalities (SH2 and DFU).

    The C file keeps one process-wide state machine in static variables and
    drives it from three interrupt callbacks and from the client calls
    [open], [close], [read] and [write] of two HAL instances.  The embedding
    below keeps the statics in a record, passes that record explicitly, and
    keeps next to it the part of the hardware the C code talks to: the
    microsecond counter TIM2, the NVIC enable bits, the control pins and the
    transfers handed to the I2C peripheral. *)

From Stdlib Require Import ZArith List Bool Lia.
From Stdlib Require Import Strings.Byte.
Import ListNotations.
Open Scope Z_scope.

(** ** Machine integers and bytes *)

(** [uint16_t] and [uint32_t] values are kept as [Z], reduced on assignment. *)
Definition u16 (x : Z) : Z := x mod 2 ^ 16.
Definition u32 (x : Z) : Z := x mod 2 ^ 32.

(** Conversion of a 32-bit [unsigned] to [int] (the [retval = len]
    assignments): two's complement on the 32-bit target. *)
Definition to_int (x : Z) : Z :=
  let y := u32 x in if y <? 2 ^ 31 then y else y - 2 ^ 32.

(** A [uint8_t] read as an integer. *)
Definition byteZ (b : byte) : Z := Z.of_N (Byte.to_N b).

(** [memcpy(dst, src, n)]: the first [n] bytes of [dst] are replaced by the
    first [n] bytes of [src].  The buffers are arrays of fixed size: [dst]
    keeps its length, also when [src] holds fewer than [n] bytes or [dst]
    has room for fewer. *)
Definition memcpy (dst src : list byte) (n : Z) : list byte :=
  let chunk := firstn (Z.to_nat n) src in
  firstn (length dst) (chunk ++ skipn (length chunk) dst).

(** ** Private types *)

Inductive BusState_e : Set :=
| BUS_INIT
| BUS_IDLE
| BUS_READING_LEN
| BUS_GOT_LEN
| BUS_READING_TRANSFER
| BUS_WRITING
| BUS_READING_DFU
| BUS_WRITING_DFU.

Definition BusState_eqb (a b : BusState_e) : bool :=
  match a, b with
  | BUS_INIT, BUS_INIT | BUS_IDLE, BUS_IDLE
  | BUS_READING_LEN, BUS_READING_LEN | BUS_GOT_LEN, BUS_GOT_LEN
  | BUS_READING_TRANSFER, BUS_READING_TRANSFER | BUS_WRITING, BUS_WRITING
  | BUS_READING_DFU, BUS_READING_DFU | BUS_WRITING_DFU, BUS_WRITING_DFU => true
  | _, _ => false
  end.

Definition READ_LEN : Z := 2.
Definition RESET_DELAY_US : Z := 10000.
Definition START_DELAY_US : Z := 2000000.
Definition DFU_BOOT_DELAY_US : Z := 50000.

Definition ADDR_SH2_0 : Z := 0x4A.
Definition ADDR_DFU_0 : Z := 0x28.

Definition GPIO_PIN_10 : Z := 0x0400.

(** ** Hardware seen by the driver *)

(** A transfer handed to the I2C peripheral with
    [HAL_I2C_Master_Receive_IT] or [HAL_I2C_Master_Transmit_IT] and not yet
    reported complete. *)
Inductive XferDir : Set := XferRx | XferTx.

Record Xfer : Set := mkXfer { xDir : XferDir; xAddr : Z; xSize : Z }.

Inductive Pin : Set := RSTN | BOOTN | PS0_WAKEN | PS1 | CLKSEL0.

Record Pins : Set := mkPins {
  pinRSTN : bool; pinBOOTN : bool; pinPS0_WAKEN : bool; pinPS1 : bool;
  pinCLKSEL0 : bool }.

Record Hw : Set := mkHw {
  tim2_cnt : Z;            (* TIM2 counter, one count per microsecond *)
  tim2_en : bool;          (* TIM2 counting *)
  irqEXTI15_10 : bool;     (* NVIC enable bit of the INTN line *)
  irqI2C1_EV : bool;       (* NVIC enable bits of the I2C peripheral *)
  irqI2C1_ER : bool;
  pins : Pins;
  xfers : list Xfer        (* transfers outstanding on the bus *)
}.

(** ** Private data of the module, with the hardware next to it *)

Record State : Set := mkState {
  isOpen : bool;
  i2cBusState : BusState_e;
  rxTimestamp_uS : Z;
  rxBuf : list byte;
  rxBufLen : Z;
  payloadLen : Z;
  txBuf : list byte;
  rxDataReady : bool;
  discards : Z;
  i2cAddr : Z;
  inReset : bool;
  hw : Hw
}.

Definition set_isOpen (v : bool) (s : State) : State :=
  mkState v (i2cBusState s) (rxTimestamp_uS s) (rxBuf s) (rxBufLen s)
    (payloadLen s) (txBuf s) (rxDataReady s) (discards s) (i2cAddr s)
    (inReset s) (hw s).
Definition set_i2cBusState (v : BusState_e) (s : State) : State :=
  mkState (isOpen s) v (rxTimestamp_uS s) (rxBuf s) (rxBufLen s)
    (payloadLen s) (txBuf s) (rxDataReady s) (discards s) (i2cAddr s)
    (inReset s) (hw s).
Definition set_rxTimestamp_uS (v : Z) (s : State) : State :=
  mkState (isOpen s) (i2cBusState s) v (rxBuf s) (rxBufLen s)
    (payloadLen s) (txBuf s) (rxDataReady s) (discards s) (i2cAddr s)
    (inReset s) (hw s).
Definition set_rxBuf (v : list byte) (s : State) : State :=
  mkState (isOpen s) (i2cBusState s) (rxTimestamp_uS s) v (rxBufLen s)
    (payloadLen s) (txBuf s) (rxDataReady s) (discards s) (i2cAddr s)
    (inReset s) (hw s).
Definition set_rxBufLen (v : Z) (s : State) : State :=
  mkState (isOpen s) (i2cBusState s) (rxTimestamp_uS s) (rxBuf s) v
    (payloadLen s) (txBuf s) (rxDataReady s) (discards s) (i2cAddr s)
    (inReset s) (hw s).
Definition set_payloadLen (v : Z) (s : State) : State :=
  mkState (isOpen s) (i2cBusState s) (rxTimestamp_uS s) (rxBuf s) (rxBufLen s)
    v (txBuf s) (rxDataReady s) (discards s) (i2cAddr s)
    (inReset s) (hw s).
Definition set_txBuf (v : list byte) (s : State) : State :=
  mkState (isOpen s) (i2cBusState s) (rxTimestamp_uS s) (rxBuf s) (rxBufLen s)
    (payloadLen s) v (rxDataReady s) (discards s) (i2cAddr s)
    (inReset s) (hw s).
Definition set_rxDataReady (v : bool) (s : State) : State :=
  mkState (isOpen s) (i2cBusState s) (rxTimestamp_uS s) (rxBuf s) (rxBufLen s)
    (payloadLen s) (txBuf s) v (discards s) (i2cAddr s)
    (inReset s) (hw s).
Definition set_discards (v : Z) (s : State) : State :=
  mkState (isOpen s) (i2cBusState s) (rxTimestamp_uS s) (rxBuf s) (rxBufLen s)
    (payloadLen s) (txBuf s) (rxDataReady s) v (i2cAddr s)
    (inReset s) (hw s).
Definition set_i2cAddr (v : Z) (s : State) : State :=
  mkState (isOpen s) (i2cBusState s) (rxTimestamp_uS s) (rxBuf s) (rxBufLen s)
    (payloadLen s) (txBuf s) (rxDataReady s) (discards s) v
    (inReset s) (hw s).
Definition set_inReset (v : bool) (s : State) : State :=
  mkState (isOpen s) (i2cBusState s) (rxTimestamp_uS s) (rxBuf s) (rxBufLen s)
    (payloadLen s) (txBuf s) (rxDataReady s) (discards s) (i2cAddr s)
    v (hw s).
Definition set_hw (v : Hw) (s : State) : State :=
  mkState (isOpen s) (i2cBusState s) (rxTimestamp_uS s) (rxBuf s) (rxBufLen s)
    (payloadLen s) (txBuf s) (rxDataReady s) (discards s) (i2cAddr s)
    (inReset s) v.

Definition set_tim2_cnt (v : Z) (h : Hw) : Hw :=
  mkHw v (tim2_en h) (irqEXTI15_10 h) (irqI2C1_EV h) (irqI2C1_ER h)
    (pins h) (xfers h).
Definition set_tim2_en (v : bool) (h : Hw) : Hw :=
  mkHw (tim2_cnt h) v (irqEXTI15_10 h) (irqI2C1_EV h) (irqI2C1_ER h)
    (pins h) (xfers h).
Definition set_irqEXTI15_10 (v : bool) (h : Hw) : Hw :=
  mkHw (tim2_cnt h) (tim2_en h) v (irqI2C1_EV h) (irqI2C1_ER h)
    (pins h) (xfers h).
Definition set_irqI2C1_EV (v : bool) (h : Hw) : Hw :=
  mkHw (tim2_cnt h) (tim2_en h) (irqEXTI15_10 h) v (irqI2C1_ER h)
    (pins h) (xfers h).
Definition set_irqI2C1_ER (v : bool) (h : Hw) : Hw :=
  mkHw (tim2_cnt h) (tim2_en h) (irqEXTI15_10 h) (irqI2C1_EV h) v
    (pins h) (xfers h).
Definition set_pins (v : Pins) (h : Hw) : Hw :=
  mkHw (tim2_cnt h) (tim2_en h) (irqEXTI15_10 h) (irqI2C1_EV h)
    (irqI2C1_ER h) v (xfers h).
Definition set_xfers (v : list Xfer) (h : Hw) : Hw :=
  mkHw (tim2_cnt h) (tim2_en h) (irqEXTI15_10 h) (irqI2C1_EV h)
    (irqI2C1_ER h) (pins h) v.

(** The hardware is reached through the state. *)
Definition on_hw (f : Hw -> Hw) (s : State) : State := set_hw (f (hw s)) s.

(** The transfers outstanding on the bus. *)
Definition outstanding (s : State) : list Xfer := xfers (hw s).

(** *** STM32 HAL calls used by the module

    The vendor library (stm32f4xx_hal*.h) is not part of the module; its
    calls are modelled by what the specification says of the three
    collaborators: the microsecond clock, the line-level I/O and the bus
    transfer engine. *)

(** Modelled from the spec: [HAL_GPIO_WritePin] of the line-level I/O,
    which sets one discrete control signal. *)
Definition HAL_GPIO_WritePin (p : Pin) (v : bool) (s : State) : State :=
  on_hw (fun h =>
    let q := pins h in
    set_pins
      match p with
      | RSTN => mkPins v (pinBOOTN q) (pinPS0_WAKEN q) (pinPS1 q) (pinCLKSEL0 q)
      | BOOTN => mkPins (pinRSTN q) v (pinPS0_WAKEN q) (pinPS1 q) (pinCLKSEL0 q)
      | PS0_WAKEN => mkPins (pinRSTN q) (pinBOOTN q) v (pinPS1 q) (pinCLKSEL0 q)
      | PS1 => mkPins (pinRSTN q) (pinBOOTN q) (pinPS0_WAKEN q) v (pinCLKSEL0 q)
      | CLKSEL0 => mkPins (pinRSTN q) (pinBOOTN q) (pinPS0_WAKEN q) (pinPS1 q) v
      end h) s.

(** Modelled from the spec: [HAL_I2C_Init] of the bus transfer engine.
    After it the bus is ready to transfer: nothing is outstanding. *)
Definition HAL_I2C_Init (s : State) : State := on_hw (set_xfers []) s.

(** Modelled from the spec: [HAL_I2C_DeInit] of the bus transfer engine.
    The bus is disabled and a transfer in flight is abandoned. *)
Definition HAL_I2C_DeInit (s : State) : State := on_hw (set_xfers []) s.

(** Modelled from the spec: [HAL_I2C_Master_Receive_IT] of the bus transfer
    engine, the request for a read whose completion is reported later.  Its
    status result is ignored by every caller in the module.  The request is
    recorded after those already outstanding, so that a second request made
    while one is outstanding shows. *)
Definition HAL_I2C_Master_Receive_IT (addr size : Z) (s : State) : State :=
  on_hw (fun h => set_xfers (xfers h ++ [mkXfer XferRx addr size]) h) s.

(** Modelled from the spec: [HAL_I2C_Master_Transmit_IT] of the bus transfer
    engine, the request for a write, recorded in the same way. *)
Definition HAL_I2C_Master_Transmit_IT (addr size : Z) (s : State) : State :=
  on_hw (fun h => set_xfers (xfers h ++ [mkXfer XferTx addr size]) h) s.

(** ** Private methods *)

Definition enableInts (s : State) : State :=
  on_hw (fun h =>
    set_irqI2C1_ER true (set_irqI2C1_EV true (set_irqEXTI15_10 true h))) s.

Definition disableInts (s : State) : State :=
  on_hw (fun h =>
    set_irqEXTI15_10 false (set_irqI2C1_EV false (set_irqI2C1_ER false h))) s.

Definition enableI2cInts (s : State) : State :=
  on_hw (fun h => set_irqI2C1_ER true (set_irqI2C1_EV true h)) s.

Definition disableI2cInts (s : State) : State :=
  on_hw (fun h => set_irqI2C1_EV false (set_irqI2C1_ER false h)) s.

Definition hal_init_gpio (s : State) : State :=
  let s := HAL_GPIO_WritePin PS0_WAKEN false s in
  let s := HAL_GPIO_WritePin PS1 true s in
  let s := HAL_GPIO_WritePin RSTN false s in
  let s := HAL_GPIO_WritePin BOOTN false s in
  HAL_GPIO_WritePin CLKSEL0 false s.

Definition hal_init_i2c (s : State) : State := HAL_I2C_Init s.

(** [HAL_TIM_Base_Init] then [HAL_TIM_Base_Start], at one count per
    microsecond: the counter runs. *)
Definition hal_init_timer (s : State) : State := on_hw (set_tim2_en true) s.

Definition hal_init_hw (s : State) : State :=
  hal_init_i2c (hal_init_gpio (hal_init_timer s)).

Definition bootn (state : bool) (s : State) : State :=
  HAL_GPIO_WritePin BOOTN state s.
Definition rstn (state : bool) (s : State) : State :=
  HAL_GPIO_WritePin RSTN state s.
Definition ps0_waken (state : bool) (s : State) : State :=
  HAL_GPIO_WritePin PS0_WAKEN state s.
Definition ps1 (state : bool) (s : State) : State :=
  HAL_GPIO_WritePin PS1 state s.

(** [__HAL_TIM_GET_COUNTER(&tim2)] *)
Definition timeNowUs (s : State) : Z := tim2_cnt (hw s).

(** ** Events of the hardware

    Modelled from the spec: what the three collaborators do on their own.
    [Tick us]: the microsecond clock counts [us] microseconds.  [IntnEdge]:
    the data-ready edge is served ([EXTI15_10_IRQHandler]).
    [I2cRxDone data]: the bus transfer engine has clocked in [data] and
    reports the read complete; [I2cTxDone]: it reports the write complete
    ([I2C1_EV_IRQHandler]). *)
Inductive HwEvent : Set :=
| Tick (us : Z)
| IntnEdge
| I2cRxDone (data : list byte)
| I2cTxDone.

(** What happens between two successive reads of the counter in a busy-wait
    loop, and the whole future of such a loop. *)
Definition Slice : Set := list HwEvent.
Definition Env : Set := list Slice.

(** Result of a [read] call: the returned [int], the client buffer and the
    word at [*t] after the call. *)
Record ReadOut : Set := mkReadOut {
  retval : Z; outBuffer : list byte; outTime : Z }.

Section I2cHal.

(** Constants of [sh2_hal.h] and [sh2_err.h], which the module includes. *)
Variable SH2_HAL_MAX_TRANSFER_IN : Z.    (* sizeof(rxBuf) *)
Variable SH2_HAL_MAX_TRANSFER_OUT : Z.   (* sizeof(txBuf) *)
Variable SH2_OK : Z.
Variable SH2_ERR : Z.
Variable SH2_ERR_BAD_PARAM : Z.

(** ** Callbacks for ISR, I2C operations *)

Definition HAL_I2C_MasterRxCpltCallback (s : State) : State :=
  match i2cBusState s with
  | BUS_READING_LEN =>
      let len :=
        u16 (Z.land (byteZ (nth 0 (rxBuf s) x00)
                     + Z.shiftl (byteZ (nth 1 (rxBuf s) x00)) 8)
                    (Z.lnot 0x8000)) in
      let s :=
        if SH2_HAL_MAX_TRANSFER_IN <? len
        then set_payloadLen (u16 SH2_HAL_MAX_TRANSFER_IN) s
        else set_payloadLen len s in
      set_i2cBusState BUS_GOT_LEN s
  | BUS_READING_TRANSFER =>
      let s := set_rxBufLen (payloadLen s) s in
      set_i2cBusState BUS_IDLE s
  | BUS_READING_DFU =>
      let s := set_rxBufLen (payloadLen s) s in
      set_i2cBusState BUS_IDLE s
  | _ => s
  end.

Definition HAL_I2C_MasterTxCpltCallback (s : State) : State :=
  match i2cBusState s with
  | BUS_WRITING => set_i2cBusState BUS_IDLE s
  | BUS_WRITING_DFU => set_i2cBusState BUS_IDLE s
  | _ => s
  end.

Definition HAL_GPIO_EXTI_Callback (n : Z) (s : State) : State :=
  match i2cBusState s with
  | BUS_INIT => s
  | st =>
      let s := set_rxTimestamp_uS (timeNowUs s) s in
      let s := set_inReset false s in
      match st with
      | BUS_IDLE =>
          let s :=
            if 0 <? rxBufLen s
            then set_rxBufLen 0 (set_discards (u32 (discards s + 1)) s)
            else s in
          let s := set_i2cBusState BUS_READING_LEN s in
          HAL_I2C_Master_Receive_IT (i2cAddr s) READ_LEN s
      | BUS_GOT_LEN =>
          let s := set_i2cBusState BUS_READING_TRANSFER s in
          HAL_I2C_Master_Receive_IT (i2cAddr s) (payloadLen s) s
      | _ => set_rxDataReady true s
      end
  end.

Definition EXTI15_10_IRQHandler (s : State) : State :=
  HAL_GPIO_EXTI_Callback GPIO_PIN_10 s.

(** [I2C1_EV_IRQHandler] at the end of a transfer.  When the oldest
    outstanding transfer has the direction of the event it is finished (a
    receive has stored its bytes at the start of [rxBuf]); the completion
    callback runs in every case. *)
Definition I2C1_EV_IRQHandler_rx (data : list byte) (s : State) : State :=
  let s :=
    match outstanding s with
    | mkXfer XferRx _ size :: rest =>
        set_rxBuf (memcpy (rxBuf s) data size) (on_hw (set_xfers rest) s)
    | _ => s
    end in
  HAL_I2C_MasterRxCpltCallback s.

Definition I2C1_EV_IRQHandler_tx (s : State) : State :=
  let s :=
    match outstanding s with
    | mkXfer XferTx _ _ :: rest => on_hw (set_xfers rest) s
    | _ => s
    end in
  HAL_I2C_MasterTxCpltCallback s.

(** An event runs its handler only while its NVIC line is enabled. *)
Definition hw_step (e : HwEvent) (s : State) : State :=
  match e with
  | Tick us =>
      if tim2_en (hw s)
      then on_hw (fun h => set_tim2_cnt (u32 (tim2_cnt h + us)) h) s
      else s
  | IntnEdge => if irqEXTI15_10 (hw s) then EXTI15_10_IRQHandler s else s
  | I2cRxDone data =>
      if irqI2C1_EV (hw s) then I2C1_EV_IRQHandler_rx data s else s
  | I2cTxDone => if irqI2C1_EV (hw s) then I2C1_EV_IRQHandler_tx s else s
  end.

Definition hw_run (sl : Slice) (s : State) : State :=
  fold_left (fun s e => hw_step e s) sl s.

(** ** Busy waits

    [while ((now - start) < t) now = timeNowUs();] in 32-bit unsigned
    arithmetic.  Each read of the counter consumes one slice of the
    environment; [None] when the environment ends while the loop still
    runs. *)
Fixpoint delay_poll (t start now : Z) (env : Env) (s : State)
  : option (State * Env) :=
  if u32 (now - start) <? t then
    match env with
    | [] => None
    | sl :: env' =>
        let s' := hw_run sl s in
        delay_poll t start (timeNowUs s') env' s'
    end
  else Some (s, env).

Definition delay_us (t : Z) (env : Env) (s : State) : option (State * Env) :=
  let now := timeNowUs s in
  let start := now in
  delay_poll t start now env s.

(** [while (((now - start) < t) && (inReset)) now = timeNowUs();] *)
Fixpoint reset_delay_poll (t start now : Z) (env : Env) (s : State)
  : option (State * Env) :=
  if (u32 (now - start) <? t) && inReset s then
    match env with
    | [] => None
    | sl :: env' =>
        let s' := hw_run sl s in
        reset_delay_poll t start (timeNowUs s') env' s'
    end
  else Some (s, env).

Definition reset_delay_us (t : Z) (env : Env) (s : State)
  : option (State * Env) :=
  let now := timeNowUs s in
  let start := now in
  reset_delay_poll t start now env s.

(** Sequencing of the waits inside [open]. *)
Definition andThen {A : Type} (w : option (State * Env))
  (k : State -> Env -> option A) : option A :=
  match w with
  | Some (s, env) => k s env
  | None => None
  end.

(** ** SH2 HAL methods *)

Definition sh2_i2c_hal_open (env : Env) (s : State)
  : option (State * Z * Env) :=
  if isOpen s then Some (s, SH2_ERR, env) else
  let s := set_i2cBusState BUS_INIT s in
  let s := set_i2cAddr (u16 (Z.shiftl ADDR_SH2_0 1)) s in
  let s := set_isOpen true s in
  let s := hal_init_hw s in
  let s := rstn false s in
  let s := set_inReset true s in
  let s := enableInts s in
  andThen (delay_us RESET_DELAY_US env s) (fun s env =>
  let s := set_i2cBusState BUS_IDLE s in
  let s := set_rxBufLen 0 s in
  let s := set_rxDataReady false s in
  let s := ps0_waken false s in
  let s := ps1 false s in
  let s := bootn true s in
  let s := rstn true s in
  andThen (reset_delay_us START_DELAY_US env s) (fun s env =>
  Some (s, SH2_OK, env))).

Definition sh2_i2c_hal_close (s : State) : State :=
  let s := rstn false s in
  let s := bootn true s in
  let s := set_i2cBusState BUS_INIT s in
  let s := disableInts s in
  let s := HAL_I2C_DeInit s in
  let s := on_hw (set_tim2_en false) s in
  set_isOpen false s.

Definition sh2_i2c_hal_read (pBuffer : list byte) (len : Z) (t : Z)
  (s : State) : State * ReadOut :=
  let s := disableInts s in
  let '(s, out) :=
    if 0 <? rxBufLen s then
      if len <? rxBufLen s then
        (set_rxBufLen 0 s, mkReadOut SH2_ERR_BAD_PARAM pBuffer t)
      else
        (set_rxBufLen 0 s,
         mkReadOut (to_int (rxBufLen s))
                   (memcpy pBuffer (rxBuf s) (rxBufLen s))
                   (rxTimestamp_uS s))
    else (s, mkReadOut 0 pBuffer t) in
  let s := enableInts s in
  let s :=
    if rxDataReady s then
      match i2cBusState s with
      | BUS_IDLE =>
          let s := set_rxDataReady false s in
          let s := set_i2cBusState BUS_READING_LEN s in
          HAL_I2C_Master_Receive_IT (i2cAddr s) READ_LEN s
      | BUS_GOT_LEN =>
          let s := set_rxDataReady false s in
          let s := set_i2cBusState BUS_READING_TRANSFER s in
          HAL_I2C_Master_Receive_IT (i2cAddr s) (payloadLen s) s
      | _ => s
      end
    else s in
  (s, out).

(** A null [pBuffer] is [None]. *)
Definition sh2_i2c_hal_write (pBuffer : option (list byte)) (len : Z)
  (s : State) : State * Z :=
  match pBuffer with
  | None => (s, SH2_ERR_BAD_PARAM)
  | Some data =>
      if (len =? 0) || (SH2_HAL_MAX_TRANSFER_OUT <? len)
      then (s, SH2_ERR_BAD_PARAM)
      else
        let s := disableI2cInts s in
        let '(s, ret) :=
          match i2cBusState s with
          | BUS_IDLE =>
              let s := set_i2cBusState BUS_WRITING s in
              let s := set_txBuf (memcpy (txBuf s) data len) s in
              let s := HAL_I2C_Master_Transmit_IT (i2cAddr s) (u16 len) s in
              (s, to_int len)
          | _ => (s, 0)
          end in
        let s := enableI2cInts s in
        (s, ret)
  end.

Definition sh2_i2c_hal_getTimeUs (s : State) : Z := timeNowUs s.

(** ** DFU HAL methods *)

Definition dfu_i2c_hal_open (env : Env) (s : State)
  : option (State * Z * Env) :=
  if isOpen s then Some (s, SH2_ERR, env) else
  let s := set_i2cBusState BUS_INIT s in
  let s := set_i2cAddr (u16 (Z.shiftl ADDR_DFU_0 1)) s in
  let s := set_isOpen true s in
  let s := hal_init_hw s in
  let s := rstn false s in
  let s := set_inReset true s in
  andThen (delay_us RESET_DELAY_US env s) (fun s env =>
  let s := set_rxBufLen 0 s in
  let s := set_rxDataReady false s in
  let s := set_i2cBusState BUS_IDLE s in
  let s := enableI2cInts s in
  let s := ps0_waken false s in
  let s := ps1 false s in
  let s := bootn false s in
  let s := rstn true s in
  andThen (delay_us DFU_BOOT_DELAY_US env s) (fun s env =>
  Some (s, SH2_OK, env))).

Definition dfu_i2c_hal_close (s : State) : State :=
  let s := rstn false s in
  let s := disableInts s in
  let s := HAL_I2C_DeInit s in
  let s := on_hw (set_tim2_en false) s in
  set_isOpen false s.

Definition dfu_i2c_hal_read (pBuffer : list byte) (len : Z) (t : Z)
  (s : State) : State * ReadOut :=
  if negb (BusState_eqb (i2cBusState s) BUS_READING_DFU) && (0 <? rxBufLen s)
  then
    if len <? rxBufLen s then
      (set_rxBufLen 0 s, mkReadOut SH2_ERR_BAD_PARAM pBuffer t)
    else
      (set_rxBufLen 0 s,
       mkReadOut (to_int (rxBufLen s))
                 (memcpy pBuffer (rxBuf s) (rxBufLen s))
                 (rxTimestamp_uS s))
  else
    match i2cBusState s with
    | BUS_IDLE =>
        let s := set_i2cBusState BUS_READING_DFU s in
        let s := set_payloadLen (u16 len) s in
        (HAL_I2C_Master_Receive_IT (i2cAddr s) (u16 len) s,
         mkReadOut 0 pBuffer t)
    | _ => (s, mkReadOut 0 pBuffer t)
    end.

Definition dfu_i2c_hal_write (pBuffer : option (list byte)) (len : Z)
  (s : State) : State * Z :=
  match pBuffer with
  | None => (s, SH2_ERR_BAD_PARAM)
  | Some data =>
      if (len =? 0) || (SH2_HAL_MAX_TRANSFER_OUT <? len)
      then (s, SH2_ERR_BAD_PARAM)
      else
        let s := disableI2cInts s in
        let '(s, ret) :=
          match i2cBusState s with
          | BUS_IDLE =>
              let s := set_i2cBusState BUS_WRITING_DFU s in
              let s := set_txBuf (memcpy (txBuf s) data len) s in
              let s := HAL_I2C_Master_Transmit_IT (i2cAddr s) (u16 len) s in
              (s, to_int len)
          | _ => (s, 0)
          end in
        let s := enableI2cInts s in
        (s, ret)
  end.

Definition dfu_i2c_hal_getTimeUs (s : State) : Z := timeNowUs s.

(** ** Public methods

    [sh2_Hal_t] is the table of function pointers handed to the client;
    [sh2_hal_init] and [dfu_hal_init] fill the two instances [sh2Hal] and
    [dfuHal]. *)
Record sh2_Hal_t : Type := mkHal {
  open : Env -> State -> option (State * Z * Env);
  close : State -> State;
  read : list byte -> Z -> Z -> State -> State * ReadOut;
  write : option (list byte) -> Z -> State -> State * Z;
  getTimeUs : State -> Z
}.

Definition sh2_hal_init : sh2_Hal_t :=
  mkHal sh2_i2c_hal_open sh2_i2c_hal_close sh2_i2c_hal_read
        sh2_i2c_hal_write sh2_i2c_hal_getTimeUs.

Definition dfu_hal_init : sh2_Hal_t :=
  mkHal dfu_i2c_hal_open dfu_i2c_hal_close dfu_i2c_hal_read
        dfu_i2c_hal_write dfu_i2c_hal_getTimeUs.

(** The two instances by name. *)
Inductive Instance : Set := sh2Hal | dfuHal.

Definition hal (i : Instance) : sh2_Hal_t :=
  match i with
  | sh2Hal => sh2_hal_init
  | dfuHal => dfu_hal_init
  end.

(** The bus address each [open] stores in [i2cAddr], in the 7 upper bits. *)
Definition address_of (i : Instance) : Z :=
  match i with
  | sh2Hal => u16 (Z.shiftl ADDR_SH2_0 1)
  | dfuHal => u16 (Z.shiftl ADDR_DFU_0 1)
  end.

(** ** Runs of the opened driver

    After [open] the driver is driven by hardware events and by the client's
    [read] and [write] calls on either instance, one after the other. *)
Inductive Call : Set :=
| CallRead (i : Instance) (pBuffer : list byte) (len t : Z)
| CallWrite (i : Instance) (pBuffer : option (list byte)) (len : Z).

Inductive Action : Set :=
| Event (e : HwEvent)
| Client (c : Call).

Definition call (c : Call) (s : State) : State :=
  match c with
  | CallRead i b len t => fst (read (hal i) b len t s)
  | CallWrite i b len => fst (write (hal i) b len s)
  end.

Definition act (a : Action) (s : State) : State :=
  match a with
  | Event e => hw_step e s
  | Client c => call c s
  end.

Definition run (l : list Action) (s : State) : State :=
  fold_left (fun s a => act a s) l s.

(** The state at program start: statics zeroed, interrupts masked, timer
    stopped, nothing on the bus. *)
Definition boot_state : State :=
  mkState false BUS_INIT 0
    (repeat x00 (Z.to_nat SH2_HAL_MAX_TRANSFER_IN)) 0 0
    (repeat x00 (Z.to_nat SH2_HAL_MAX_TRANSFER_OUT)) false 0 0 false
    (mkHw 0 false false false false
       (mkPins false false false false false) []).

(** The states the driver can be in: from program start through any
    [open], [close], event and client call. *)
Inductive reachable : State -> Prop :=
| reach_boot : reachable boot_state
| reach_act (a : Action) (s : State) :
    reachable s -> reachable (act a s)
| reach_open (i : Instance) (env env' : Env) (s s' : State) (r : Z) :
    reachable s -> open (hal i) env s = Some (s', r, env') -> reachable s'
| reach_close (i : Instance) (s : State) :
    reachable s -> reachable (close (hal i) s).

(** ** Predicates used in the statements *)

(** The bus state agrees with what is outstanding on the bus: nothing in the
    three resting states, exactly one transfer of the right direction in
    each busy state. *)
Definition bus_ok (s : State) : bool :=
  match i2cBusState s, outstanding s with
  | (BUS_INIT | BUS_IDLE | BUS_GOT_LEN), [] => true
  | (BUS_READING_LEN | BUS_READING_TRANSFER | BUS_READING_DFU),
    [mkXfer XferRx _ _] => true
  | (BUS_WRITING | BUS_WRITING_DFU), [mkXfer XferTx _ _] => true
  | _, _ => false
  end.

(** From [s] to [s'] the outstanding transfers are unchanged, or the oldest
    one has completed, or one transfer was started while none was
    outstanding. *)
Definition starts_at_most_one (s s' : State) : Prop :=
  outstanding s' = outstanding s
  \/ (exists x, outstanding s = x :: outstanding s')
  \/ (outstanding s = [] /\ exists x, outstanding s' = [x]).

(** Microseconds counted by TIM2 during a slice, and interrupts served. *)
Definition ticks_of (e : HwEvent) : Z :=
  match e with Tick us => us | _ => 0 end.

Definition advance (sl : Slice) : Z :=
  fold_right (fun e acc => ticks_of e + acc) 0 sl.

Definition is_irq (e : HwEvent) : bool :=
  match e with Tick _ => false | _ => true end.

Definition is_edge (e : HwEvent) : bool :=
  match e with IntnEdge => true | _ => false end.

Definition irq_count (sl : Slice) : nat := length (filter is_irq sl).

(** Events other than the data-ready edge. *)
Definition no_edge (e : HwEvent) : bool := negb (is_edge e).

(** No data-ready edge during the slice. *)
Definition quiet (sl : Slice) : bool := forallb no_edge sl.

(** The slice counts at least [d] and at most [dmax] microseconds. *)
Definition paced (d dmax : Z) (sl : Slice) : Prop := d <= advance sl <= dmax.

(** The two length fields hold 16-bit values: [payloadLen] is a
    [uint16_t], and [rxBufLen] is only ever assigned 0 or [payloadLen]. *)
Definition lens_u16 (s : State) : Prop :=
  0 <= rxBufLen s < 2 ^ 16 /\ 0 <= payloadLen s < 2 ^ 16.

(** What is buffered, and what is about to be read as payload, fits the
    receive buffer. *)
Definition frame_fits (s : State) : Prop :=
  0 <= rxBufLen s <= SH2_HAL_MAX_TRANSFER_IN
  /\ (i2cBusState s = BUS_GOT_LEN \/ i2cBusState s = BUS_READING_TRANSFER ->
      0 <= payloadLen s <= SH2_HAL_MAX_TRANSFER_IN)
  /\ i2cBusState s <> BUS_READING_DFU
  /\ Z.of_nat (length (rxBuf s)) = SH2_HAL_MAX_TRANSFER_IN.

(** Everything but the fixed-length [read] of the DFU instance, whose size
    is the caller's. *)
Definition length_prefixed (a : Action) : bool :=
  match a with
  | Client (CallRead dfuHal _ _ _) => false
  | _ => true
  end.

(** ** Sample hardware behaviour, used to run the model

    Five polls of the counter one second apart with nothing else going on;
    and the arrival of two frames, the second one announced before the
    first was read. *)
Definition sample_env : Env :=
  [[Tick 1000000]; [Tick 1000000]; [Tick 1000000]; [Tick 1000000];
   [Tick 1000000]].

Definition sample_two_frames : list Action :=
  [Event IntnEdge; Event (I2cRxDone [x01; x00]);
   Event IntnEdge; Event (I2cRxDone [xaa]);
   Event IntnEdge].

(** During the wait for the first edge, with [d0] discards counted when the
    wait began: armed, buffer empty, nothing discarded since. *)
Definition armed (d0 : Z) (s : State) : Prop :=
  i2cBusState s = BUS_IDLE /\ rxBufLen s = 0 /\ discards s = d0.

(** The first edge has been served and nothing has been received yet. *)
Definition released (d0 : Z) (s : State) : Prop :=
  rxBufLen s = 0 /\ discards s = d0 /\ inReset s = false.

(** ** Further notions, for the behaviour of whole exchanges *)

(** The driver with its three interrupt lines on, the counter running,
    nothing on the bus and a receive buffer of the declared size. *)
Definition listening (s : State) : Prop :=
  irqEXTI15_10 (hw s) = true /\ irqI2C1_EV (hw s) = true
  /\ tim2_en (hw s) = true /\ outstanding s = []
  /\ Z.of_nat (length (rxBuf s)) = SH2_HAL_MAX_TRANSFER_IN
  /\ 0 <= rxBufLen s.

(** The announcement of a frame: the edge, then the two-byte header. *)
Definition header_arrival (a b : Z) (hdr : list byte) : list Action :=
  [Event (Tick a); Event IntnEdge; Event (Tick b); Event (I2cRxDone hdr)].

(** The second half: the edge, then the payload. *)
Definition payload_arrival (c d : Z) (data : list byte) : list Action :=
  [Event (Tick c); Event IntnEdge; Event (Tick d); Event (I2cRxDone data)].

(** One frame as the peripheral delivers it, with the time that passes
    before each step. *)
Definition frame_arrival (a b c d : Z) (hdr data : list byte)
  : list Action :=
  header_arrival a b hdr ++ payload_arrival c d data.

(** The length announced by a header. *)
Definition announced (b0 b1 : byte) : Z :=
  Z.min (Z.clearbit (byteZ b0 + 256 * byteZ b1) 15) SH2_HAL_MAX_TRANSFER_IN.

(** Every receive on the bus has room in the receive buffer. *)
Definition receives_fit (s : State) : Prop :=
  forall x, In x (outstanding s) -> xDir x = XferRx ->
    0 <= xSize x <= SH2_HAL_MAX_TRANSFER_IN.

(** The control pins [open] leaves behind: reset released, boot-mode
    select high for the application and low for the bootloader, the two
    protocol selects and the clock select low. *)
Definition boot_pins (i : Instance) : Pins :=
  match i with
  | sh2Hal => mkPins true true false false false
  | dfuHal => mkPins true false false false false
  end.

(** An open driver of the SH2 instance at rest, with the buffers of the
    SH2 library: idle, nothing buffered, interrupts on, counter running. *)
Definition sample_idle : State :=
  mkState true BUS_IDLE 0 (repeat x00 384) 0 0 (repeat x00 128) false 0
    (u16 (Z.shiftl ADDR_SH2_0 1)) false
    (mkHw 0 true true true true (mkPins true true false false false) []).

(** ** Mainline code, statement by statement

    The handlers are asynchronous: wherever the mainline has not masked a
    line, its handler can run between two statements, and the counter
    counts meanwhile.  [exec] runs straight-line code in this way: before
    each statement comes what the hardware does next, one slice of the
    environment; [None] when the environment ends first.  Statements that
    neither read nor write the state kept here (fields of init structures,
    clock enables, interrupt priorities) are not listed: what is served
    around them is served before the next statement that is. *)
Fixpoint exec (prog : list (State -> State)) (env : Env) (s : State)
  : option (State * Env) :=
  match prog with
  | [] => Some (s, env)
  | stmt :: prog' =>
      match env with
      | [] => None
      | sl :: env' => exec prog' env' (stmt (hw_run sl s))
      end
  end.

(** A statement that only reads: the test of an [if], the first reading of
    the counter in a wait. *)
Definition observe (s : State) : State := s.

(** [hal_init_hw]: [hal_init_timer], the five pin writes of
    [hal_init_gpio] and [hal_init_i2c], in source order. *)
Definition hal_init_hw_body : list (State -> State) :=
  [hal_init_timer;
   HAL_GPIO_WritePin PS0_WAKEN false; HAL_GPIO_WritePin PS1 true;
   HAL_GPIO_WritePin RSTN false; HAL_GPIO_WritePin BOOTN false;
   HAL_GPIO_WritePin CLKSEL0 false;
   hal_init_i2c].

(** [sh2_i2c_hal_open] with the hardware acting between its statements as
    well as at the polls of its two waits. *)
Definition sh2_i2c_hal_open_preemptible (env : Env) (s : State)
  : option (State * Z * Env) :=
  if isOpen s then Some (s, SH2_ERR, env) else
  andThen
    (exec ([set_i2cBusState BUS_INIT;
            set_i2cAddr (u16 (Z.shiftl ADDR_SH2_0 1));
            set_isOpen true]
           ++ hal_init_hw_body
           ++ [rstn false; set_inReset true; enableInts; observe])
       env s) (fun s env =>
  andThen (delay_us RESET_DELAY_US env s) (fun s env =>
  andThen
    (exec [set_i2cBusState BUS_IDLE; set_rxBufLen 0; set_rxDataReady false;
           ps0_waken false; ps1 false; bootn true; rstn true; observe]
       env s) (fun s env =>
  andThen (reset_delay_us START_DELAY_US env s) (fun s env =>
  Some (s, SH2_OK, env))))).

(** [dfu_i2c_hal_open] in the same way. *)
Definition dfu_i2c_hal_open_preemptible (env : Env) (s : State)
  : option (State * Z * Env) :=
  if isOpen s then Some (s, SH2_ERR, env) else
  andThen
    (exec ([set_i2cBusState BUS_INIT;
            set_i2cAddr (u16 (Z.shiftl ADDR_DFU_0 1));
            set_isOpen true]
           ++ hal_init_hw_body
           ++ [rstn false; set_inReset true; observe])
       env s) (fun s env =>
  andThen (delay_us RESET_DELAY_US env s) (fun s env =>
  andThen
    (exec [set_rxBufLen 0; set_rxDataReady false; set_i2cBusState BUS_IDLE;
           enableI2cInts;
           ps0_waken false; ps1 false; bootn false; rstn true; observe]
       env s) (fun s env =>
  andThen (delay_us DFU_BOOT_DELAY_US env s) (fun s env =>
  Some (s, SH2_OK, env))))).

Definition open_preemptible (i : Instance) (env : Env) (s : State)
  : option (State * Z * Env) :=
  match i with
  | sh2Hal => sh2_i2c_hal_open_preemptible env s
  | dfuHal => dfu_i2c_hal_open_preemptible env s
  end.

(** [sh2_i2c_hal_write] in the same way: the test of the bus state is one
    step, the assignment that follows it the next. *)
Definition sh2_i2c_hal_write_preemptible
  (pBuffer : option (list byte)) (len : Z) (env : Env) (s : State)
  : option (State * Z * Env) :=
  match pBuffer with
  | None => Some (s, SH2_ERR_BAD_PARAM, env)
  | Some data =>
      if (len =? 0) || (SH2_HAL_MAX_TRANSFER_OUT <? len)
      then Some (s, SH2_ERR_BAD_PARAM, env)
      else
        andThen (exec [disableI2cInts; observe] env s) (fun s env =>
        match i2cBusState s with
        | BUS_IDLE =>
            andThen
              (exec [set_i2cBusState BUS_WRITING;
                     (fun s => set_txBuf (memcpy (txBuf s) data len) s);
                     (fun s =>
                        HAL_I2C_Master_Transmit_IT (i2cAddr s) (u16 len) s);
                     enableI2cInts] env s) (fun s env =>
            Some (s, to_int len, env))
        | _ =>
            andThen (exec [enableI2cInts] env s) (fun s env =>
            Some (s, 0, env))
        end)
  end.

(** [sh2_i2c_hal_read] in the same way.  Between [disableInts] and
    [enableInts] the three lines are masked and only the counter moves,
    which the copy does not read: the copy is one step.  The tail runs with
    the lines enabled, each test and each assignment a step of its own. *)
Definition sh2_i2c_hal_read_preemptible
  (pBuffer : list byte) (len : Z) (t : Z) (env : Env) (s : State)
  : option (State * ReadOut * Env) :=
  andThen (exec [disableInts] env s) (fun s env =>
  let '(s, out) :=
    if 0 <? rxBufLen s then
      if len <? rxBufLen s then
        (set_rxBufLen 0 s, mkReadOut SH2_ERR_BAD_PARAM pBuffer t)
      else
        (set_rxBufLen 0 s,
         mkReadOut (to_int (rxBufLen s))
                   (memcpy pBuffer (rxBuf s) (rxBufLen s))
                   (rxTimestamp_uS s))
    else (s, mkReadOut 0 pBuffer t) in
  andThen (exec [enableInts; observe] env s) (fun s env =>
  if rxDataReady s then
    andThen (exec [observe] env s) (fun s env =>
    match i2cBusState s with
    | BUS_IDLE =>
        andThen
          (exec [set_rxDataReady false;
                 set_i2cBusState BUS_READING_LEN;
                 (fun s => HAL_I2C_Master_Receive_IT (i2cAddr s) READ_LEN s)]
             env s) (fun s env =>
        Some (s, out, env))
    | _ =>
        andThen (exec [observe] env s) (fun s env =>
        match i2cBusState s with
        | BUS_GOT_LEN =>
            andThen
              (exec [set_rxDataReady false;
                     set_i2cBusState BUS_READING_TRANSFER;
                     (fun s =>
                        HAL_I2C_Master_Receive_IT (i2cAddr s)
                          (payloadLen s) s)]
                 env s) (fun s env =>
            Some (s, out, env))
        | _ => Some (s, out, env)
        end)
    end)
  else Some (s, out, env))).







(** ** Machine arithmetic *)

Lemma byteZ_range (b : byte) : 0 <= byteZ b < 256.
Proof.
  unfold byteZ. pose proof (Byte.to_N_bounded b) as H. lia.
Qed.

Lemma u16_small (x : Z) : 0 <= x < 2 ^ 16 -> u16 x = x.
Proof. intros H. unfold u16. now apply Z.mod_small. Qed.

Lemma u16_range (x : Z) : 0 <= u16 x < 2 ^ 16.
Proof. unfold u16. apply Z.mod_pos_bound. lia. Qed.

Lemma u16_le (x : Z) : 0 <= x -> u16 x <= x.
Proof. intros H. unfold u16. apply Z.mod_le; lia. Qed.

Lemma u32_small (x : Z) : 0 <= x < 2 ^ 32 -> u32 x = x.
Proof. intros H. unfold u32. now apply Z.mod_small. Qed.

Lemma u32_add_l (a b : Z) : u32 (u32 a + b) = u32 (a + b).
Proof. unfold u32. apply Zplus_mod_idemp_l. Qed.

Lemma u32_sub_l (a b : Z) : u32 (u32 a - b) = u32 (a - b).
Proof. unfold u32. apply Zminus_mod_idemp_l. Qed.

Lemma to_int_small (x : Z) : 0 <= x < 2 ^ 31 -> to_int x = x.
Proof.
  intros H. unfold to_int. rewrite u32_small by lia.
  destruct (Z.ltb_spec x (2 ^ 31)); lia.
Qed.

Lemma clearbit15_mod (x : Z) :
  0 <= x < 2 ^ 16 -> Z.clearbit x 15 = x mod 2 ^ 15.
Proof.
  intros Hx. apply Z.bits_inj'. intros n Hn.
  rewrite Z.clearbit_eqb by lia.
  destruct (Z.ltb_spec n 15) as [Hlt | Hge].
  - rewrite Z.mod_pow2_bits_low by lia.
    destruct (Z.eqb_spec 15 n); [lia | now rewrite andb_true_r].
  - rewrite Z.mod_pow2_bits_high by lia.
    destruct (Z.eqb_spec 15 n) as [<- | Hne].
    + now rewrite andb_false_r.
    + rewrite andb_true_r.
      destruct (Z.eq_dec x 0) as [-> | Hnz]; [apply Z.bits_0 |].
      apply Z.bits_above_log2; [lia |].
      apply Z.log2_lt_pow2; [lia |].
      apply Z.lt_le_trans with (2 ^ 16); [lia |].
      apply Z.pow_le_mono_r; lia.
Qed.

(** The length field as the callback computes it: the little-endian pair
    with bit 15 cleared. *)
Lemma length_field (b0 b1 : byte) :
  u16 (Z.land (byteZ b0 + Z.shiftl (byteZ b1) 8) (Z.lnot 0x8000))
  = Z.clearbit (byteZ b0 + 256 * byteZ b1) 15
  /\ 0 <= Z.clearbit (byteZ b0 + 256 * byteZ b1) 15 < 2 ^ 15.
Proof.
  pose proof (byteZ_range b0) as H0. pose proof (byteZ_range b1) as H1.
  rewrite Z.shiftl_mul_pow2 by lia.
  replace (byteZ b1 * 2 ^ 8) with (256 * byteZ b1) by lia.
  assert (Hx : 0 <= byteZ b0 + 256 * byteZ b1 < 2 ^ 16) by lia.
  revert Hx. generalize (byteZ b0 + 256 * byteZ b1). intros x Hx.
  assert (Hc : Z.clearbit x 15 = Z.land x (Z.lnot 0x8000)).
  { unfold Z.clearbit. rewrite Z.ldiff_land. reflexivity. }
  rewrite <- Hc.
  assert (Hr : 0 <= Z.clearbit x 15 < 2 ^ 15).
  { rewrite clearbit15_mod by exact Hx. apply Z.mod_pos_bound. lia. }
  split; [apply u16_small; lia | exact Hr].
Qed.

(** ** [memcpy] on buffers that are large enough *)

Lemma memcpy_length (dst src : list byte) (n : Z) :
  length (memcpy dst src n) = length dst.
Proof.
  unfold memcpy. rewrite length_firstn, length_app, length_skipn. lia.
Qed.

Lemma memcpy_fits (dst src : list byte) (n : Z) :
  (Z.to_nat n <= length src)%nat -> (Z.to_nat n <= length dst)%nat ->
  memcpy dst src n = firstn (Z.to_nat n) src ++ skipn (Z.to_nat n) dst.
Proof.
  intros Hs Hd. unfold memcpy.
  rewrite length_firstn, Nat.min_l by exact Hs.
  apply firstn_all2. rewrite length_app, length_firstn, length_skipn. lia.
Qed.

Lemma memcpy_copies (dst src : list byte) (n : Z) :
  (Z.to_nat n <= length src)%nat -> (Z.to_nat n <= length dst)%nat ->
  firstn (Z.to_nat n) (memcpy dst src n) = firstn (Z.to_nat n) src
  /\ skipn (Z.to_nat n) (memcpy dst src n) = skipn (Z.to_nat n) dst.
Proof.
  intros Hs Hd. rewrite memcpy_fits by assumption.
  assert (Hl : length (firstn (Z.to_nat n) src) = Z.to_nat n).
  { rewrite length_firstn. lia. }
  split.
  - rewrite firstn_app, Hl, Nat.sub_diag, firstn_O, app_nil_r.
    apply firstn_all2. lia.
  - rewrite skipn_app, Hl, Nat.sub_diag. simpl.
    rewrite skipn_all2 by lia. reflexivity.
Qed.

(** Reduction of field accesses through the setters, and nothing else. *)
Ltac fields :=
  cbn [isOpen i2cBusState rxTimestamp_uS rxBuf rxBufLen payloadLen txBuf
       rxDataReady discards i2cAddr inReset hw
       set_isOpen set_i2cBusState set_rxTimestamp_uS set_rxBuf set_rxBufLen
       set_payloadLen set_txBuf set_rxDataReady set_discards set_i2cAddr
       set_inReset set_hw on_hw outstanding timeNowUs
       tim2_cnt tim2_en irqEXTI15_10 irqI2C1_EV irqI2C1_ER pins xfers
       set_tim2_cnt set_tim2_en set_irqEXTI15_10 set_irqI2C1_EV
       set_irqI2C1_ER set_pins set_xfers
       HAL_GPIO_WritePin HAL_I2C_Init HAL_I2C_DeInit
       HAL_I2C_Master_Receive_IT HAL_I2C_Master_Transmit_IT
       enableInts disableInts enableI2cInts disableI2cInts
       hal_init_gpio hal_init_i2c hal_init_timer hal_init_hw
       bootn rstn ps0_waken ps1
       retval outBuffer outTime fst snd] in *.

(** ** The callbacks *)

(** C10.  A data-ready edge that arrives while the bus state is
    [BUS_INIT] (before [open] has armed the state machine, or after
    [close]) has no effect at all: the callback returns the state it was
    given, so the timestamp, the reset flag, the pending flag, the discard
    counter, the receive buffer and the bus state are unchanged and no
    transfer is started; the same holds for the event delivered through the
    interrupt line. *)
Theorem edge_ignored_when_uninitialized (n : Z) (s : State) :
  i2cBusState s = BUS_INIT ->
  HAL_GPIO_EXTI_Callback n s = s
  /\ hw_step IntnEdge s = s
  /\ outstanding (HAL_GPIO_EXTI_Callback n s) = outstanding s.
Proof.
  intros H.
  assert (E : HAL_GPIO_EXTI_Callback n s = s).
  { unfold HAL_GPIO_EXTI_Callback. now rewrite H. }
  repeat split.
  - exact E.
  - unfold hw_step, EXTI15_10_IRQHandler, HAL_GPIO_EXTI_Callback.
    rewrite H. now destruct (irqEXTI15_10 (hw s)).
  - now rewrite E.
Qed.

(** The decoding step of the receive callback. *)
Lemma rx_len_decode (t : State) (c0 c1 : byte) (r : list byte) :
  0 <= SH2_HAL_MAX_TRANSFER_IN ->
  i2cBusState t = BUS_READING_LEN -> rxBuf t = c0 :: c1 :: r ->
  payloadLen (HAL_I2C_MasterRxCpltCallback t)
  = Z.min (Z.clearbit (byteZ c0 + 256 * byteZ c1) 15) SH2_HAL_MAX_TRANSFER_IN
  /\ i2cBusState (HAL_I2C_MasterRxCpltCallback t) = BUS_GOT_LEN
  /\ outstanding (HAL_I2C_MasterRxCpltCallback t) = outstanding t.
Proof.
  intros Hcap Ht Hb. unfold HAL_I2C_MasterRxCpltCallback.
  rewrite Ht, Hb. cbn [nth].
  destruct (length_field c0 c1) as [-> Hr].
  destruct (Z.ltb_spec SH2_HAL_MAX_TRANSFER_IN
              (Z.clearbit (byteZ c0 + 256 * byteZ c1) 15)) as [Hlt | Hge];
    (split; [| split; reflexivity]); fields.
  - rewrite u16_small by lia. lia.
  - lia.
Qed.

(** C2.  A read completion in [BUS_READING_LEN] with the two received bytes
    [b0], [b1] at the start of the receive buffer stores
    min((b0 + 256*b1) with bit 15 cleared, sizeof(rxBuf)) as payload length
    and moves to [BUS_GOT_LEN]; the bytes 05 80 (0x8005) give the same
    payload length as 05 00 (0x0005). *)
Theorem length_read_completion (s : State) (b0 b1 : byte) (rest : list byte) :
  0 <= SH2_HAL_MAX_TRANSFER_IN ->
  i2cBusState s = BUS_READING_LEN ->
  rxBuf s = b0 :: b1 :: rest ->
  let s' := HAL_I2C_MasterRxCpltCallback s in
  payloadLen s'
  = Z.min (Z.clearbit (byteZ b0 + 256 * byteZ b1) 15) SH2_HAL_MAX_TRANSFER_IN
  /\ i2cBusState s' = BUS_GOT_LEN
  /\ (forall s2 rest2,
        i2cBusState s2 = BUS_READING_LEN ->
        b0 = x05 -> b1 = x80 -> rxBuf s2 = x05 :: x00 :: rest2 ->
        payloadLen (HAL_I2C_MasterRxCpltCallback s2) = payloadLen s').
Proof.
  intros Hcap Hst Hbuf. cbv zeta.
  destruct (rx_len_decode s b0 b1 rest Hcap Hst Hbuf) as (Hp & Hs & _).
  split; [exact Hp |]. split; [exact Hs |].
  intros s2 rest2 Hst2 -> -> Hbuf2.
  destruct (rx_len_decode s2 x05 x00 rest2 Hcap Hst2 Hbuf2) as (Hp2 & _).
  rewrite Hp, Hp2. reflexivity.
Qed.

(** The same seen from the bus: the completion of the two-byte read stores
    the bytes the peripheral sent and the callback decodes them. *)
Lemma length_bytes_received
  (s : State) (b0 b1 : byte) (more : list byte) (a : Z) :
  0 <= SH2_HAL_MAX_TRANSFER_IN ->
  i2cBusState s = BUS_READING_LEN ->
  outstanding s = [mkXfer XferRx a READ_LEN] ->
  irqI2C1_EV (hw s) = true ->
  (2 <= length (rxBuf s))%nat ->
  let s' := hw_step (I2cRxDone (b0 :: b1 :: more)) s in
  payloadLen s'
  = Z.min (Z.clearbit (byteZ b0 + 256 * byteZ b1) 15) SH2_HAL_MAX_TRANSFER_IN
  /\ i2cBusState s' = BUS_GOT_LEN
  /\ outstanding s' = [].
Proof.
  intros Hcap Hst Hout Hirq Hlen. cbv zeta.
  unfold hw_step. rewrite Hirq. unfold I2C1_EV_IRQHandler_rx.
  rewrite Hout.
  set (s1 := set_rxBuf (memcpy (rxBuf s) (b0 :: b1 :: more) READ_LEN)
               (on_hw (set_xfers []) s)).
  assert (Hbuf : rxBuf s1 = b0 :: b1 :: skipn 2 (rxBuf s)).
  { unfold s1. fields. rewrite memcpy_fits; [reflexivity | |]; cbn; lia. }
  destruct (rx_len_decode s1 b0 b1 _ Hcap Hst Hbuf) as (Hp & Hs & Ho).
  repeat split; assumption.
Qed.

(** ** Client read of the SH2 instance *)

Lemma sh2_read_out (s : State) (pBuffer : list byte) (len t : Z) :
  snd (sh2_i2c_hal_read pBuffer len t s)
  = if 0 <? rxBufLen s then
      if len <? rxBufLen s then mkReadOut SH2_ERR_BAD_PARAM pBuffer t
      else mkReadOut (to_int (rxBufLen s))
                     (memcpy pBuffer (rxBuf s) (rxBufLen s))
                     (rxTimestamp_uS s)
    else mkReadOut 0 pBuffer t.
Proof.
  unfold sh2_i2c_hal_read. fields.
  destruct (0 <? rxBufLen s); [destruct (len <? rxBufLen s) |]; reflexivity.
Qed.

Lemma sh2_read_rxBufLen (s : State) (pBuffer : list byte) (len t : Z) :
  rxBufLen (fst (sh2_i2c_hal_read pBuffer len t s))
  = if 0 <? rxBufLen s then 0 else rxBufLen s.
Proof.
  unfold sh2_i2c_hal_read. fields.
  destruct (0 <? rxBufLen s); [destruct (len <? rxBufLen s) |];
    fields; destruct (rxDataReady s), (i2cBusState s); reflexivity.
Qed.

(** C3.  [read] of the SH2 instance with a frame of [N] bytes buffered
    ([N] fits the 16-bit payload length it was copied from): when the
    caller's capacity [len] is below [N] the call returns
    [SH2_ERR_BAD_PARAM], clears the buffer length and leaves the caller's
    buffer and time word alone; when [len] is at least [N] it returns [N],
    copies exactly the first [N] bytes of [rxBuf] to the caller, stores the
    capture timestamp and clears the buffer length; with an empty buffer it
    returns 0.  A byte count that is returned never exceeds [len]. *)
Theorem sh2_read_contract (s : State) (pBuffer : list byte) (len t : Z) :
  0 <= len < 2 ^ 32 ->
  0 <= rxBufLen s < 2 ^ 16 ->
  let N := rxBufLen s in
  let s' := fst (sh2_i2c_hal_read pBuffer len t s) in
  let out := snd (sh2_i2c_hal_read pBuffer len t s) in
  (0 < N -> len < N ->
     retval out = SH2_ERR_BAD_PARAM /\ rxBufLen s' = 0
     /\ outBuffer out = pBuffer /\ outTime out = t)
  /\ (0 < N -> N <= len ->
        retval out = N /\ rxBufLen s' = 0
        /\ outTime out = rxTimestamp_uS s
        /\ length (outBuffer out) = length pBuffer
        /\ (N <= Z.of_nat (length (rxBuf s)) ->
            len <= Z.of_nat (length pBuffer) ->
            firstn (Z.to_nat N) (outBuffer out) = firstn (Z.to_nat N) (rxBuf s)
            /\ skipn (Z.to_nat N) (outBuffer out) = skipn (Z.to_nat N) pBuffer))
  /\ (N = 0 ->
        retval out = 0 /\ rxBufLen s' = 0
        /\ outBuffer out = pBuffer /\ outTime out = t)
  /\ (retval out = SH2_ERR_BAD_PARAM \/ 0 <= retval out <= len).
Proof.
  intros Hlen HN N s' out. subst s' out.
  rewrite sh2_read_out, sh2_read_rxBufLen. fold N.
  destruct (Z.ltb_spec 0 N) as [Hpos | Hzero];
    [destruct (Z.ltb_spec len N) as [Hsmall | Hfit] |]; fields.
  - repeat split; intros; try reflexivity; lia.
  - assert (Hret : to_int N = N) by (apply to_int_small; lia).
    rewrite Hret.
    split; [intros; lia |]. split; [| split; [intros; lia | right; lia]].
    intros _ _. repeat split.
    + apply memcpy_length.
    + apply memcpy_copies; lia.
    + apply memcpy_copies; lia.
  - split; [intros; lia |]. split; [intros; lia |].
    split; [| right; lia]. intros _. repeat split. lia.
Qed.

(** C8.  [read] of the SH2 instance, after the buffered frame has been
    handled (copied out, dropped, or none there), looks at the pending flag.
    With the flag set: in [BUS_IDLE] it starts the two-byte length read, in
    [BUS_GOT_LEN] it starts the payload read of the length decoded before,
    and clears the flag in both cases; in every other bus state the flag
    stays set, the bus state stays and no transfer is started. *)
Theorem sh2_read_starts_deferred_read
  (s : State) (pBuffer : list byte) (len t : Z) :
  rxDataReady s = true ->
  let s' := fst (sh2_i2c_hal_read pBuffer len t s) in
  (i2cBusState s = BUS_IDLE ->
     i2cBusState s' = BUS_READING_LEN
     /\ outstanding s' = outstanding s ++ [mkXfer XferRx (i2cAddr s) READ_LEN]
     /\ rxDataReady s' = false)
  /\ (i2cBusState s = BUS_GOT_LEN ->
        i2cBusState s' = BUS_READING_TRANSFER
        /\ outstanding s'
           = outstanding s ++ [mkXfer XferRx (i2cAddr s) (payloadLen s)]
        /\ rxDataReady s' = false)
  /\ (i2cBusState s <> BUS_IDLE -> i2cBusState s <> BUS_GOT_LEN ->
        i2cBusState s' = i2cBusState s
        /\ outstanding s' = outstanding s
        /\ rxDataReady s' = true).
Proof.
  intros Hflag s'. subst s'. unfold sh2_i2c_hal_read. fields.
  destruct (0 <? rxBufLen s); [destruct (len <? rxBufLen s) |];
    fields; rewrite Hflag;
    destruct (i2cBusState s) eqn:Hst; fields;
    (split; [| split]); intros; try discriminate; try congruence;
    repeat split; auto.
Qed.

(** ** Client write of both instances *)

(** C4.  [write] of either instance: a null buffer, a zero length or a
    length above sizeof(txBuf) gives [SH2_ERR_BAD_PARAM] and changes
    nothing.  Otherwise, called in [BUS_IDLE] it returns the full length
    with the payload copied to the start of [txBuf]; called in any other
    bus state it returns 0 and leaves [txBuf], the bus state and the
    outstanding transfers as they were. *)
Theorem write_contract
  (i : Instance) (pBuffer : option (list byte)) (len : Z) (s : State) :
  0 <= len < 2 ^ 32 ->
  SH2_HAL_MAX_TRANSFER_OUT < 2 ^ 31 ->
  let s' := fst (write (hal i) pBuffer len s) in
  let ret := snd (write (hal i) pBuffer len s) in
  (pBuffer = None \/ len = 0 \/ SH2_HAL_MAX_TRANSFER_OUT < len ->
     ret = SH2_ERR_BAD_PARAM /\ s' = s)
  /\ (forall data,
        pBuffer = Some data -> len <> 0 -> len <= SH2_HAL_MAX_TRANSFER_OUT ->
        (i2cBusState s = BUS_IDLE ->
           ret = len
           /\ txBuf s' = memcpy (txBuf s) data len
           /\ (len <= Z.of_nat (length data) ->
               len <= Z.of_nat (length (txBuf s)) ->
               firstn (Z.to_nat len) (txBuf s') = firstn (Z.to_nat len) data
               /\ skipn (Z.to_nat len) (txBuf s')
                  = skipn (Z.to_nat len) (txBuf s)))
        /\ (i2cBusState s <> BUS_IDLE ->
              ret = 0 /\ txBuf s' = txBuf s
              /\ i2cBusState s' = i2cBusState s
              /\ outstanding s' = outstanding s)).
Proof.
  intros Hlen Hcap s' ret. subst s' ret.
  assert (Hgo : forall data, pBuffer = Some data -> len <> 0 ->
            len <= SH2_HAL_MAX_TRANSFER_OUT ->
            (len =? 0) || (SH2_HAL_MAX_TRANSFER_OUT <? len) = false).
  { intros data _ Hnz Hle. apply orb_false_iff. split.
    - now apply Z.eqb_neq.
    - apply Z.ltb_ge. exact Hle. }
  split.
  - intros Hbad.
    destruct i; cbn [hal write sh2_hal_init dfu_hal_init];
      unfold sh2_i2c_hal_write, dfu_i2c_hal_write;
      (destruct pBuffer as [data |]; [| now split]);
      (destruct Hbad as [Hn | [Hz | Hbig]]; [discriminate | |]);
      [ subst len; rewrite Z.eqb_refl; now split
      | apply Z.ltb_lt in Hbig; rewrite Hbig, orb_true_r; now split
      | subst len; rewrite Z.eqb_refl; now split
      | apply Z.ltb_lt in Hbig; rewrite Hbig, orb_true_r; now split ].
  - intros data Hp Hnz Hle. specialize (Hgo data Hp Hnz Hle). subst pBuffer.
    assert (Hret : to_int len = len) by (apply to_int_small; lia).
    destruct i; cbn [hal write sh2_hal_init dfu_hal_init];
      unfold sh2_i2c_hal_write, dfu_i2c_hal_write; rewrite Hgo; fields;
      destruct (i2cBusState s) eqn:Hst; fields;
      (split; intros Hs; [try discriminate | try congruence]);
      repeat split; auto;
      try (intros; apply memcpy_copies; lia).
Qed.

(** ** Invariants of events, calls and busy waits *)

Ltac open_state s :=
  destruct s as [o st ts rb rl pl tb dr dc ad ir [cnt en x1 x2 x3 pn xf]].

Ltac step_cases :=
  unfold hw_step, EXTI15_10_IRQHandler, HAL_GPIO_EXTI_Callback,
    I2C1_EV_IRQHandler_rx, I2C1_EV_IRQHandler_tx,
    HAL_I2C_MasterRxCpltCallback, HAL_I2C_MasterTxCpltCallback in *;
  fields.

Ltac call_cases :=
  unfold call in *;
  cbn [hal read write sh2_hal_init dfu_hal_init] in *;
  unfold sh2_i2c_hal_read, sh2_i2c_hal_write, dfu_i2c_hal_read,
    dfu_i2c_hal_write in *;
  fields.

Lemma hw_run_inv (P : State -> Prop) :
  (forall e s, P s -> P (hw_step e s)) ->
  forall sl s, P s -> P (hw_run sl s).
Proof.
  intros Hstep sl. induction sl as [| e sl IH]; intros s Hs.
  - exact Hs.
  - cbn. apply IH. now apply Hstep.
Qed.

Lemma delay_poll_inv (P : State -> Prop) :
  (forall e s, P s -> P (hw_step e s)) ->
  forall env t start now s s' env',
    P s -> delay_poll t start now env s = Some (s', env') -> P s'.
Proof.
  intros Hstep env.
  induction env as [| sl env IH]; intros t start now s s' env' Hs Hrun;
    cbn in Hrun; destruct (u32 (now - start) <? t); try discriminate.
  - now inversion Hrun; subst.
  - eapply IH; [| exact Hrun]. now apply hw_run_inv.
  - now inversion Hrun; subst.
Qed.

Lemma reset_delay_poll_inv (P : State -> Prop) :
  (forall e s, P s -> P (hw_step e s)) ->
  forall env t start now s s' env',
    P s -> reset_delay_poll t start now env s = Some (s', env') -> P s'.
Proof.
  intros Hstep env.
  induction env as [| sl env IH]; intros t start now s s' env' Hs Hrun;
    cbn in Hrun; destruct ((u32 (now - start) <? t) && inReset s);
    try discriminate.
  - now inversion Hrun; subst.
  - eapply IH; [| exact Hrun]. now apply hw_run_inv.
  - now inversion Hrun; subst.
Qed.

Lemma run_inv (P : State -> Prop) :
  (forall a s, P s -> P (act a s)) ->
  forall l s, P s -> P (run l s).
Proof.
  intros Hact l. induction l as [| a l IH]; intros s Hs.
  - exact Hs.
  - cbn. apply IH. now apply Hact.
Qed.

Ltac split_ifs :=
  repeat (match goal with
          | |- context [if ?c then _ else _] =>
              match type of c with bool => destruct c end
          end; fields).

Ltac case_xfers xf :=
  destruct xf as [| [[] ?a ?sz] [| ?y ?xf']].

Lemma hw_step_isOpen (e : HwEvent) (s : State) :
  isOpen (hw_step e s) = isOpen s.
Proof.
  open_state s. destruct e, st; case_xfers xf; step_cases; split_ifs;
    reflexivity.
Qed.

Lemma call_isOpen (c : Call) (s : State) : isOpen (call c s) = isOpen s.
Proof.
  open_state s.
  destruct c as [[] b len t | [] [data |] len], st; call_cases; split_ifs;
    reflexivity.
Qed.

Lemma act_isOpen (a : Action) (s : State) : isOpen (act a s) = isOpen s.
Proof. destruct a; [apply hw_step_isOpen | apply call_isOpen]. Qed.

(** The bus state and the outstanding transfers agree after every event. *)
Lemma hw_step_bus_ok (e : HwEvent) (s : State) :
  bus_ok s = true -> bus_ok (hw_step e s) = true.
Proof.
  open_state s. unfold bus_ok.
  destruct e, st; case_xfers xf; step_cases; split_ifs;
    intros H; try discriminate H; reflexivity.
Qed.

Lemma call_bus_ok (c : Call) (s : State) :
  bus_ok s = true -> bus_ok (call c s) = true.
Proof.
  open_state s. unfold bus_ok.
  destruct c as [[] b len t | [] [data |] len], st; case_xfers xf;
    call_cases; split_ifs; intros H; try discriminate H; reflexivity.
Qed.

Lemma act_bus_ok (a : Action) (s : State) :
  bus_ok s = true -> bus_ok (act a s) = true.
Proof. destruct a; [apply hw_step_bus_ok | apply call_bus_ok]. Qed.

(** Before the state machine is armed no event starts a transfer. *)
Lemma hw_step_init (e : HwEvent) (s : State) :
  i2cBusState s = BUS_INIT /\ outstanding s = [] ->
  i2cBusState (hw_step e s) = BUS_INIT /\ outstanding (hw_step e s) = [].
Proof.
  open_state s. fields. intros [-> ->].
  destruct e; step_cases; split_ifs; now split.
Qed.

(** From a state in which the bus state and the bus agree, an event or a
    call starts at most one transfer, and only when none is outstanding. *)
Lemma act_starts_at_most_one (a : Action) (s : State) :
  bus_ok s = true -> starts_at_most_one s (act a s).
Proof.
  open_state s. unfold bus_ok, starts_at_most_one, act.
  destruct a as [[us | | rx |] | [[] b len t | [] [data |] len]], st;
    case_xfers xf;
    step_cases; call_cases; intros H; try discriminate H; split_ifs;
    first [ left; reflexivity
          | right; left; eexists; reflexivity
          | right; right; split; [reflexivity | eexists; reflexivity] ].
Qed.

(** [open i] past the already-open check, taken apart: the first wait
    [E1] ends in [t1] with [e1] left of the environment, the second wait
    [E2] ends in [t2] with [e2] left. *)
Ltac open_waits i Hclosed Hopen :=
  destruct i; cbn [hal open sh2_hal_init dfu_hal_init] in Hopen;
  unfold sh2_i2c_hal_open, dfu_i2c_hal_open, andThen in Hopen;
  rewrite Hclosed in Hopen;
  match type of Hopen with
  | match delay_us ?t ?e ?s1 with _ => _ end = _ =>
      destruct (delay_us t e s1) as [[t1 e1] |] eqn:E1; [| discriminate]
  end;
  match type of Hopen with
  | match ?w ?t ?e ?s2 with _ => _ end = _ =>
      destruct (w t e s2) as [[t2 e2] |] eqn:E2; [| discriminate]
  end;
  inversion Hopen; subst; clear Hopen.

(** ** Range of the length fields *)

Lemma act_lens_u16 (a : Action) (s : State) :
  lens_u16 s -> lens_u16 (act a s).
Proof.
  unfold lens_u16. open_state s. fields. intros [Hr Hp].
  destruct a as [[us | | rx |] | [[] b len t | [] [data |] len]], st;
    case_xfers xf; unfold act; step_cases; call_cases; split_ifs;
    split; first [assumption | apply u16_range | lia].
Qed.

Lemma run_lens_u16 (l : list Action) (s : State) :
  lens_u16 s -> lens_u16 (run l s).
Proof.
  apply (run_inv lens_u16). intros a t. apply act_lens_u16.
Qed.

(** In every state the driver can be in, both length fields are within
    16 bits. *)
Lemma reachable_lens_u16 (s : State) : reachable s -> lens_u16 s.
Proof.
  induction 1 as [| a s _ IH | i env env' s s' r _ IH Hopen | i s _ IH].
  - unfold lens_u16. cbn. lia.
  - now apply act_lens_u16.
  - assert (HP : forall e t, lens_u16 t -> lens_u16 (hw_step e t)).
    { intros e t. apply (act_lens_u16 (Event e)). }
    assert (Hmid : forall t, lens_u16 t -> lens_u16 (set_rxBufLen 0 t)).
    { unfold lens_u16. intros t [_ Hp]. fields. split; [lia | exact Hp]. }
    destruct (isOpen s) eqn:Hclosed.
    + destruct i; cbn [hal open sh2_hal_init dfu_hal_init] in Hopen;
        unfold sh2_i2c_hal_open, dfu_i2c_hal_open in Hopen;
        rewrite Hclosed in Hopen; inversion Hopen; subst; exact IH.
    + open_waits i Hclosed Hopen;
        apply (delay_poll_inv lens_u16 HP) in E1; try exact IH.
      * apply (reset_delay_poll_inv lens_u16 HP) in E2; [exact E2 |].
        apply (Hmid t1 E1).
      * apply (delay_poll_inv lens_u16 HP) in E2; [exact E2 |].
        apply (Hmid t1 E1).
  - destruct i; exact IH.
Qed.

(** ** Frames under the SH2 personality *)

Ltac split_ifs_spec :=
  repeat (match goal with
          | |- context [if ?a <? ?b then _ else _] =>
              destruct (Z.ltb_spec a b)
          | |- context [if ?c then _ else _] =>
              match type of c with bool => destruct c end
          end; fields).

(** As long as the DFU instance does not read, no frame longer than the
    receive buffer is ever announced or buffered. *)
Lemma act_frame_fits (a : Action) (s : State) :
  length_prefixed a = true -> frame_fits s -> frame_fits (act a s).
Proof.
  unfold frame_fits. open_state s. fields. intros Ha (Hl & Hp & Hd & Hb).
  destruct a as [[us | | rx |] | [[] b len t | [] [data |] len]], st;
    try discriminate Ha; try congruence;
    case_xfers xf; unfold act; step_cases; call_cases; split_ifs_spec;
    rewrite ?memcpy_length;
    repeat match goal with
           | |- _ /\ _ => split
           | |- _ -> _ => intro
           | H : _ \/ _ |- _ => destruct H
           end;
    try discriminate; try assumption; try lia;
    try (apply Hp; auto; fail);
    try (pose proof (Hp (or_introl eq_refl)); lia);
    try (pose proof (Hp (or_intror eq_refl)); lia);
    try match goal with
        | |- context [u16 ?x] => pose proof (u16_range x); try lia
        end.
  all: apply u16_le; lia.
Qed.

(** ** [open] *)

(** A successful [open] of either instance returns [SH2_OK], leaves the
    flag set and the bus state in agreement with the bus, whatever happens
    during its waits. *)
Lemma open_arms (i : Instance) (env : Env) (s s' : State) (r : Z)
  (env' : Env) :
  isOpen s = false ->
  open (hal i) env s = Some (s', r, env') ->
  r = SH2_OK /\ isOpen s' = true /\ bus_ok s' = true.
Proof.
  intros Hclosed Hopen.
  pose (P1 := fun t : State =>
    isOpen t = true /\ i2cBusState t = BUS_INIT /\ outstanding t = []).
  pose (P2 := fun t : State => isOpen t = true /\ bus_ok t = true).
  assert (H1 : forall e t, P1 t -> P1 (hw_step e t)).
  { intros e t [Ho Hi]. split.
    - now rewrite hw_step_isOpen.
    - now apply hw_step_init. }
  assert (H2 : forall e t, P2 t -> P2 (hw_step e t)).
  { intros e t [Ho Hb]. split.
    - now rewrite hw_step_isOpen.
    - now apply hw_step_bus_ok. }
  open_waits i Hclosed Hopen;
    apply (delay_poll_inv P1 H1) in E1; try (now repeat split);
    destruct E1 as (Ho & Hi & Hx);
    (split; [reflexivity |]).
  - apply (reset_delay_poll_inv P2 H2) in E2; [exact E2 |].
    split; [exact Ho |]. unfold bus_ok, outstanding in *. fields.
    now rewrite Hx.
  - apply (delay_poll_inv P2 H2) in E2; [exact E2 |].
    split; [exact Ho |]. unfold bus_ok, outstanding in *. fields.
    now rewrite Hx.
Qed.

Lemma hw_step_rxBuf_length (e : HwEvent) (s : State) :
  length (rxBuf (hw_step e s)) = length (rxBuf s).
Proof.
  open_state s. destruct e, st; case_xfers xf; step_cases; split_ifs;
    rewrite ?memcpy_length; reflexivity.
Qed.

(** [open] leaves nothing buffered, whatever the receive buffer held. *)
Lemma open_frame_fits (i : Instance) (env : Env) (s s' : State) (r : Z)
  (env' : Env) :
  isOpen s = false ->
  Z.of_nat (length (rxBuf s)) = SH2_HAL_MAX_TRANSFER_IN ->
  open (hal i) env s = Some (s', r, env') ->
  frame_fits s'.
Proof.
  intros Hclosed Hlen Hopen.
  pose (P1 := fun t : State =>
    Z.of_nat (length (rxBuf t)) = SH2_HAL_MAX_TRANSFER_IN).
  assert (HP1 : forall e t, P1 t -> P1 (hw_step e t)).
  { intros e t Ht. unfold P1. now rewrite hw_step_rxBuf_length. }
  assert (HP2 : forall e t, frame_fits t -> frame_fits (hw_step e t)).
  { intros e t. now apply (act_frame_fits (Event e)). }
  assert (Hmid : forall t, P1 t ->
            frame_fits (set_rxBufLen 0 (set_i2cBusState BUS_IDLE t))).
  { intros t Ht. unfold frame_fits, P1 in *. fields.
    repeat split; try lia; try discriminate;
      match goal with
      | Hx : _ \/ _ |- _ => destruct Hx; discriminate
      end. }
  open_waits i Hclosed Hopen;
    apply (delay_poll_inv P1 HP1) in E1; try exact Hlen.
  - apply (reset_delay_poll_inv frame_fits HP2) in E2; [exact E2 |].
    apply (Hmid t1 E1).
  - apply (delay_poll_inv frame_fits HP2) in E2; [exact E2 |].
    apply (Hmid t1 E1).
Qed.

Lemma run_frame_fits (l : list Action) :
  forall s, forallb length_prefixed l = true ->
    frame_fits s -> frame_fits (run l s).
Proof.
  induction l as [| a l IH]; intros s Hl Hs; [exact Hs |].
  cbn in Hl. apply andb_true_iff in Hl as [Ha Hl].
  cbn. apply IH; [exact Hl |]. now apply act_frame_fits.
Qed.

(** C5.  While the flag [isOpen] is set, [open] of either instance returns
    [SH2_ERR] and leaves the state (and the environment) untouched: nothing
    is initialised again.  The flag is shared by the two instances: after a
    successful [open] of one of them, and any run of events and [read] and
    [write] calls, [open] of either instance is rejected in this way. *)
Theorem open_rejected_while_open
  (i j k : Instance) (env env0 env1 env2 : Env) (s s0 s1 : State) (r : Z)
  (l : list Action) :
  isOpen s = true ->
  isOpen s0 = false ->
  open (hal i) env0 s0 = Some (s1, r, env1) ->
  open (hal k) env s = Some (s, SH2_ERR, env)
  /\ isOpen (run l s1) = true
  /\ open (hal j) env2 (run l s1) = Some (run l s1, SH2_ERR, env2).
Proof.
  intros Hopened Hclosed Hopen.
  assert (Hrej : forall k e t, isOpen t = true ->
            open (hal k) e t = Some (t, SH2_ERR, e)).
  { intros k' e t Ht.
    destruct k'; cbn [hal open sh2_hal_init dfu_hal_init];
      unfold sh2_i2c_hal_open, dfu_i2c_hal_open; now rewrite Ht. }
  split; [now apply Hrej |].
  destruct (open_arms i env0 s0 s1 r env1 Hclosed Hopen) as (_ & Ho & _).
  assert (Hrun : isOpen (run l s1) = true).
  { apply (run_inv (fun t => isOpen t = true)); [| exact Ho].
    intros a t Ht. now rewrite act_isOpen. }
  split; [exact Hrun | now apply Hrej].
Qed.

(** As long as no handler runs inside a client call: from the state left
    by a successful [open] of either instance, after every sequence of
    hardware events and whole client [read] and [write] calls, the bus
    state is [BUS_IDLE] only when no transfer is outstanding, at most one
    transfer is outstanding, and whatever comes next starts at most one
    transfer and only when none is outstanding. *)
Lemma unpreempted_single_outstanding_transfer
  (i : Instance) (env env' : Env) (s0 s1 : State) (r : Z)
  (l : list Action) :
  isOpen s0 = false ->
  open (hal i) env s0 = Some (s1, r, env') ->
  let s := run l s1 in
  (i2cBusState s = BUS_IDLE -> outstanding s = [])
  /\ (length (outstanding s) <= 1)%nat
  /\ (forall a, starts_at_most_one s (act a s)).
Proof.
  intros Hclosed Hopen s.
  destruct (open_arms i env s0 s1 r env' Hclosed Hopen) as (_ & _ & Hb).
  assert (Hs : bus_ok s = true).
  { unfold s. apply (run_inv (fun t => bus_ok t = true)); [| exact Hb].
    intros a t. apply act_bus_ok. }
  split; [| split].
  - intros Hidle. unfold bus_ok in Hs. rewrite Hidle in Hs.
    destruct (outstanding s); [reflexivity | discriminate].
  - unfold bus_ok in Hs.
    destruct (i2cBusState s), (outstanding s) as [| x [| y rest]];
      cbn; try lia; try discriminate Hs; destruct x as [[] ? ?];
      discriminate Hs.
  - intros a. now apply act_starts_at_most_one.
Qed.

(** ** The counter during a busy wait *)

Lemma hw_run_app (a b : Slice) (s : State) :
  hw_run (a ++ b) s = hw_run b (hw_run a s).
Proof. unfold hw_run. apply fold_left_app. Qed.

Lemma advance_app (a b : Slice) : advance (a ++ b) = advance a + advance b.
Proof.
  induction a as [| e a IH]; [reflexivity |].
  unfold advance in *. cbn [app fold_right]. rewrite IH. lia.
Qed.

(** Invariants of events of one kind only. *)
Lemma hw_run_inv_on (ok : HwEvent -> bool) (P : State -> Prop) :
  (forall e s, ok e = true -> P s -> P (hw_step e s)) ->
  forall sl s, forallb ok sl = true -> P s -> P (hw_run sl s).
Proof.
  intros Hstep sl. induction sl as [| e sl IH]; intros s Hok Hs.
  - exact Hs.
  - cbn in Hok. apply andb_true_iff in Hok as [He Hsl].
    cbn. apply IH; [exact Hsl |]. now apply Hstep.
Qed.

Lemma hw_step_tim2_en (e : HwEvent) (s : State) :
  tim2_en (hw (hw_step e s)) = tim2_en (hw s).
Proof.
  open_state s. destruct e, st; case_xfers xf; step_cases; split_ifs;
    reflexivity.
Qed.

Lemma hw_step_clock (e : HwEvent) (s : State) :
  tim2_en (hw s) = true ->
  u32 (timeNowUs (hw_step e s)) = u32 (timeNowUs s + ticks_of e).
Proof.
  open_state s. fields. intros ->.
  destruct e, st; case_xfers xf; step_cases; split_ifs;
    unfold u32; cbn [ticks_of];
    rewrite ?Z.mod_mod, ?Z.add_0_r by lia; reflexivity.
Qed.

Lemma hw_run_clock (sl : Slice) (s : State) :
  tim2_en (hw s) = true ->
  tim2_en (hw (hw_run sl s)) = true
  /\ u32 (timeNowUs (hw_run sl s)) = u32 (timeNowUs s + advance sl).
Proof.
  revert s. induction sl as [| e sl IH]; intros s Hen.
  - cbn. rewrite Z.add_0_r. now split.
  - assert (Hen' : tim2_en (hw (hw_step e s)) = true)
      by now rewrite hw_step_tim2_en.
    destruct (IH (hw_step e s) Hen') as [H1 H2].
    split; [exact H1 |].
    change (hw_run (e :: sl) s) with (hw_run sl (hw_step e s)).
    rewrite H2.
    rewrite <- (u32_add_l (timeNowUs (hw_step e s))).
    rewrite (hw_step_clock e s Hen), u32_add_l.
    f_equal. unfold advance. cbn [fold_right]. lia.
Qed.

(** Time elapsed since [start], as the loop condition computes it, after
    one more slice. *)
Lemma elapsed_after_slice (sl : Slice) (s : State) (start : Z) :
  tim2_en (hw s) = true ->
  u32 (timeNowUs (hw_run sl s) - start)
  = u32 (u32 (timeNowUs s - start) + advance sl).
Proof.
  intros Hen. destruct (hw_run_clock sl s Hen) as [_ H].
  rewrite <- (u32_sub_l (timeNowUs (hw_run sl s))), H.
  rewrite u32_sub_l, u32_add_l. f_equal. lia.
Qed.

(** What a wait returns is the state after the slices it consumed. *)
Lemma delay_poll_shape (env : Env) :
  forall t start now s s' env',
    delay_poll t start now env s = Some (s', env') ->
    exists pre, env = pre ++ env' /\ s' = hw_run (concat pre) s.
Proof.
  induction env as [| sl env IH]; intros t start now s s' env' Hrun;
    cbn in Hrun; destruct (u32 (now - start) <? t); try discriminate.
  - inversion Hrun; subst. now exists [].
  - destruct (IH _ _ _ _ _ _ Hrun) as (pre & -> & ->).
    exists (sl :: pre). split; [reflexivity |].
    cbn [concat]. now rewrite hw_run_app.
  - inversion Hrun; subst. now exists [].
Qed.


(** [reset_delay_us] leaves its loop for one of two reasons. *)
Lemma reset_delay_poll_exit (env : Env) :
  forall t start now s s' env',
    now = timeNowUs s ->
    reset_delay_poll t start now env s = Some (s', env') ->
    inReset s' = false \/ t <= u32 (timeNowUs s' - start).
Proof.
  induction env as [| sl env IH]; intros t start now s s' env' Hnow Hrun;
    cbn in Hrun;
    destruct (Z.ltb_spec (u32 (now - start)) t) as [Hlt | Hge];
    destruct (inReset s) eqn:Hr; cbn in Hrun; try discriminate;
    try (inversion Hrun; subst; auto; fail).
  eapply IH; [| exact Hrun]. reflexivity.
Qed.

(** A wait comes to its end when the counter runs and every slice counts
    at least [d] microseconds, and not so many that the window between [t]
    and the wrap of the counter is jumped over.  It consumes no more slices
    than needed. *)
Lemma delay_poll_total (d dmax t start : Z) :
  0 < d -> dmax <= 2 ^ 32 - t ->
  forall env now s,
    now = timeNowUs s ->
    tim2_en (hw s) = true ->
    Forall (paced d dmax) env ->
    t <= u32 (now - start) + d * Z.of_nat (length env) ->
    exists s' pre env',
      delay_poll t start now env s = Some (s', env')
      /\ env = pre ++ env'
      /\ (t <= u32 (now - start) -> pre = [])
      /\ (u32 (now - start) < t ->
          d * Z.of_nat (length pre) < t - u32 (now - start) + d).
Proof.
  intros Hd Hmax env.
  induction env as [| sl env IH]; intros now s Hnow Hen Hpaced Hbudget;
    cbn [delay_poll];
    destruct (Z.ltb_spec (u32 (now - start)) t) as [Hlt | Hge].
  - cbn in Hbudget. lia.
  - exists s, [], []. repeat split; auto. lia.
  - inversion Hpaced as [| ? ? Hsl Hrest]; subst.
    unfold paced in Hsl.
    set (s1 := hw_run sl s).
    assert (Hen1 : tim2_en (hw s1) = true)
      by (unfold s1; now apply hw_run_clock).
    assert (He : 0 <= u32 (timeNowUs s - start) < 2 ^ 32)
      by (unfold u32; apply Z.mod_pos_bound; lia).
    assert (Hel : u32 (timeNowUs s1 - start)
                  = u32 (timeNowUs s - start) + advance sl).
    { unfold s1. rewrite elapsed_after_slice by exact Hen.
      apply u32_small. lia. }
    assert (Hb1 : t <= u32 (timeNowUs s1 - start)
                       + d * Z.of_nat (length env)).
    { rewrite Hel. cbn [length] in Hbudget. lia. }
    destruct (IH (timeNowUs s1) s1 eq_refl Hen1 Hrest Hb1)
      as (s' & pre & env' & Hrun & Henv & Hnone & Hsome).
    exists s', (sl :: pre), env'. split; [exact Hrun |].
    split; [now rewrite Henv |]. split; [lia |].
    intros _. cbn [length].
    destruct (Z.lt_ge_cases (u32 (timeNowUs s1 - start)) t) as [Hl | Hg].
    + specialize (Hsome Hl). lia.
    + rewrite (Hnone Hg). cbn. lia.
  - exists s, [], (sl :: env). repeat split; auto. lia.
Qed.

(** The wait for the first edge ends no later than [delay_us] would. *)
Lemma reset_delay_poll_total (d dmax t start : Z) :
  0 < d -> dmax <= 2 ^ 32 - t ->
  forall env now s,
    now = timeNowUs s ->
    tim2_en (hw s) = true ->
    Forall (paced d dmax) env ->
    t <= u32 (now - start) + d * Z.of_nat (length env) ->
    exists s' pre env',
      reset_delay_poll t start now env s = Some (s', env')
      /\ env = pre ++ env'
      /\ (t <= u32 (now - start) -> pre = [])
      /\ (u32 (now - start) < t ->
          d * Z.of_nat (length pre) < t - u32 (now - start) + d).
Proof.
  intros Hd Hmax env.
  induction env as [| sl env IH]; intros now s Hnow Hen Hpaced Hbudget;
    cbn [reset_delay_poll];
    destruct (Z.ltb_spec (u32 (now - start)) t) as [Hlt | Hge];
    destruct (inReset s) eqn:Hr; cbn [andb];
    try (exists s, [], []; repeat split; cbn; auto; lia);
    try (exists s, [], (sl :: env); repeat split; cbn; auto; lia).
  - cbn in Hbudget. lia.
  - inversion Hpaced as [| ? ? Hsl Hrest]; subst.
    unfold paced in Hsl.
    set (s1 := hw_run sl s).
    assert (Hen1 : tim2_en (hw s1) = true)
      by (unfold s1; now apply hw_run_clock).
    assert (He : 0 <= u32 (timeNowUs s - start) < 2 ^ 32)
      by (unfold u32; apply Z.mod_pos_bound; lia).
    assert (Hel : u32 (timeNowUs s1 - start)
                  = u32 (timeNowUs s - start) + advance sl).
    { unfold s1. rewrite elapsed_after_slice by exact Hen.
      apply u32_small. lia. }
    assert (Hb1 : t <= u32 (timeNowUs s1 - start)
                       + d * Z.of_nat (length env)).
    { rewrite Hel. cbn [length] in Hbudget. lia. }
    destruct (IH (timeNowUs s1) s1 eq_refl Hen1 Hrest Hb1)
      as (s' & pre & env' & Hrun & Henv & Hnone & Hsome).
    exists s', (sl :: pre), env'. split; [exact Hrun |].
    split; [now rewrite Henv |]. split; [lia |].
    intros _. cbn [length].
    destruct (Z.lt_ge_cases (u32 (timeNowUs s1 - start)) t) as [Hl | Hg].
    + specialize (Hsome Hl). lia.
    + rewrite (Hnone Hg). cbn. lia.
Qed.

(** [open] of either instance returns, with [SH2_OK], when it is not open
    yet and the counter keeps counting, whatever else happens. *)
Lemma open_returns (i : Instance) (d : Z) (env : Env) (s : State) :
  isOpen s = false ->
  0 < d ->
  Forall (paced d (2 ^ 32 - START_DELAY_US)) env ->
  RESET_DELAY_US + START_DELAY_US + 2 * d <= d * Z.of_nat (length env) ->
  exists s' env', open (hal i) env s = Some (s', SH2_OK, env').
Proof.
  intros Hclosed Hd Hp Hlen.
  assert (Hz : forall c, u32 (c - c) = 0)
    by (intros c; rewrite Z.sub_diag; reflexivity).
  assert (Hfirst : forall s1, tim2_en (hw s1) = true ->
    exists s2 pre env1,
      delay_us RESET_DELAY_US env s1 = Some (s2, env1)
      /\ env = pre ++ env1
      /\ d * Z.of_nat (length pre) < RESET_DELAY_US + d
      /\ tim2_en (hw s2) = true).
  { intros s1 Hen. unfold delay_us.
    destruct (delay_poll_total d (2 ^ 32 - START_DELAY_US) RESET_DELAY_US
                (timeNowUs s1) Hd
                ltac:(unfold START_DELAY_US, RESET_DELAY_US; lia)
                env (timeNowUs s1) s1 eq_refl Hen Hp
                ltac:(rewrite Hz; unfold START_DELAY_US in Hlen; lia))
      as (s2 & pre & env1 & Hrun & Hsplit & _ & Hused).
    rewrite Hz in Hused.
    specialize (Hused ltac:(unfold RESET_DELAY_US; lia)).
    exists s2, pre, env1. repeat split; try assumption; try lia.
    destruct (delay_poll_shape _ _ _ _ _ _ _ Hrun) as (pre' & _ & ->).
    now apply hw_run_clock. }
  destruct i; cbn [hal open sh2_hal_init dfu_hal_init];
    unfold sh2_i2c_hal_open, dfu_i2c_hal_open; rewrite Hclosed;
    match goal with
    | |- context [delay_us _ _ ?x] =>
        destruct (Hfirst x eq_refl)
          as (s2 & pre & env1 & Hrun1 & Hsplit & Hused & Hen2)
    end;
    rewrite Hrun1; cbn [andThen];
    assert (Hp1 : Forall (paced d (2 ^ 32 - START_DELAY_US)) env1)
      by (rewrite Hsplit in Hp; now apply Forall_app in Hp);
    rewrite Hsplit, length_app, Nat2Z.inj_add in Hlen.
  - match goal with
    | |- context [reset_delay_us _ _ ?x] => set (s3 := x)
    end.
    unfold reset_delay_us.
    destruct (reset_delay_poll_total d (2 ^ 32 - START_DELAY_US)
                START_DELAY_US (timeNowUs s3) Hd (Z.le_refl _)
                env1 (timeNowUs s3) s3 eq_refl Hen2 Hp1
                ltac:(rewrite Hz; unfold RESET_DELAY_US in *; lia))
      as (s4 & pre2 & env2 & Hrun2 & _).
    rewrite Hrun2. cbn [andThen]. now exists s4, env2.
  - match goal with
    | |- context [delay_us DFU_BOOT_DELAY_US _ ?x] => set (s3 := x)
    end.
    unfold delay_us.
    destruct (delay_poll_total d (2 ^ 32 - START_DELAY_US)
                DFU_BOOT_DELAY_US (timeNowUs s3) Hd
                ltac:(unfold START_DELAY_US, DFU_BOOT_DELAY_US; lia)
                env1 (timeNowUs s3) s3 eq_refl Hen2 Hp1
                ltac:(rewrite Hz;
                      unfold START_DELAY_US, DFU_BOOT_DELAY_US in *; lia))
      as (s4 & pre2 & env2 & Hrun2 & _).
    rewrite Hrun2. cbn [andThen]. now exists s4, env2.
Qed.

(** ** Waiting for a peripheral that stays silent *)

Lemma quiet_concat (l : list Slice) :
  Forall (fun sl => quiet sl = true) l -> forallb no_edge (concat l) = true.
Proof.
  induction 1 as [| sl l Hsl _ IH]; [reflexivity |].
  cbn [concat]. rewrite forallb_app. apply andb_true_iff. now split.
Qed.

(** Events other than the data-ready edge leave the reset flag alone, and
    leave a resting bus state where it is. *)
Lemma hw_step_no_edge (e : HwEvent) (s : State) :
  no_edge e = true ->
  inReset (hw_step e s) = inReset s
  /\ (i2cBusState s = BUS_IDLE -> i2cBusState (hw_step e s) = BUS_IDLE).
Proof.
  open_state s. intros He.
  destruct e, st; try discriminate He; case_xfers xf; step_cases;
    split_ifs; split; intros; congruence.
Qed.

Lemma hw_run_silent (sl : Slice) (s : State) :
  forallb no_edge sl = true ->
  inReset s = true ->
  inReset (hw_run sl s) = true
  /\ isOpen (hw_run sl s) = isOpen s
  /\ (i2cBusState s = BUS_IDLE -> i2cBusState (hw_run sl s) = BUS_IDLE).
Proof.
  intros Hq Hr.
  apply (hw_run_inv_on no_edge
           (fun t => inReset t = true /\ isOpen t = isOpen s
                     /\ (i2cBusState s = BUS_IDLE ->
                         i2cBusState t = BUS_IDLE))); auto.
  intros e t He (H1 & H2 & H3).
  destruct (hw_step_no_edge e t He) as [Ha Hb].
  rewrite Ha, hw_step_isOpen. auto.
Qed.

(** With no edge the reset flag stays set and [reset_delay_us] waits like
    [delay_us]. *)
Lemma reset_delay_poll_silent (env : Env) :
  forall t start now s,
    Forall (fun sl => quiet sl = true) env ->
    inReset s = true ->
    reset_delay_poll t start now env s = delay_poll t start now env s.
Proof.
  induction env as [| sl env IH]; intros t start now s Hq Hr; cbn;
    rewrite Hr, andb_true_r; [reflexivity |].
  destruct (u32 (now - start) <? t); [| reflexivity].
  inversion Hq; subst. apply IH; [assumption |].
  now apply hw_run_silent.
Qed.

(** ** [close] followed by [open] *)

Lemma hw_step_irqEXTI (e : HwEvent) (s : State) :
  irqEXTI15_10 (hw (hw_step e s)) = irqEXTI15_10 (hw s).
Proof.
  open_state s. destruct e, st; case_xfers xf; step_cases; split_ifs;
    reflexivity.
Qed.

(** Before the state machine is armed the discard counter does not move. *)
Lemma hw_step_init_discards (e : HwEvent) (s : State) :
  i2cBusState s = BUS_INIT -> discards (hw_step e s) = discards s.
Proof.
  open_state s. fields. intros ->.
  destruct e; case_xfers xf; step_cases; split_ifs; reflexivity.
Qed.

(** With the edge interrupt masked, an idle state machine stays idle. *)
Lemma hw_step_masked_idle (e : HwEvent) (s : State) :
  irqEXTI15_10 (hw s) = false -> i2cBusState s = BUS_IDLE ->
  i2cBusState (hw_step e s) = BUS_IDLE
  /\ rxBufLen (hw_step e s) = rxBufLen s
  /\ discards (hw_step e s) = discards s
  /\ rxDataReady (hw_step e s) = rxDataReady s.
Proof.
  open_state s. fields. intros -> ->.
  destruct e; case_xfers xf; step_cases; split_ifs; repeat split.
Qed.

Lemma hw_step_armed (d0 : Z) (e : HwEvent) (s : State) :
  armed d0 s -> armed d0 (hw_step e s) \/ released d0 (hw_step e s).
Proof.
  unfold armed, released. open_state s. fields. intros (-> & -> & <-).
  destruct e; case_xfers xf; step_cases;
    try change (0 <? 0) with false; split_ifs; auto.
Qed.

Lemma hw_step_tick_only (d0 : Z) (e : HwEvent) (s : State) :
  is_irq e = false ->
  (armed d0 s -> armed d0 (hw_step e s))
  /\ (released d0 s -> released d0 (hw_step e s)).
Proof.
  unfold armed, released. open_state s. fields.
  destruct e; try discriminate. intros _. step_cases.
  split_ifs; split; intros H; exact H.
Qed.

Lemma irq_count_zero (sl : Slice) :
  irq_count sl = 0%nat -> forallb (fun e => negb (is_irq e)) sl = true.
Proof.
  unfold irq_count. induction sl as [| e sl IH]; [reflexivity |].
  cbn. destruct (is_irq e); cbn; [discriminate | exact IH].
Qed.

(** A slice with at most one interrupt, entered armed, ends armed or with
    the first edge served and nothing yet received. *)
Lemma hw_run_armed (d0 : Z) (sl : Slice) :
  forall s, (irq_count sl <= 1)%nat ->
    armed d0 s -> armed d0 (hw_run sl s) \/ released d0 (hw_run sl s).
Proof.
  induction sl as [| e sl IH]; intros s Hc Ha; [now left |].
  change (hw_run (e :: sl) s) with (hw_run sl (hw_step e s)).
  unfold irq_count in Hc. cbn [filter] in Hc.
  destruct (is_irq e) eqn:He.
  - cbn [length] in Hc.
    assert (Hz : irq_count sl = 0%nat) by (unfold irq_count; lia).
    apply (hw_run_inv_on (fun e => negb (is_irq e))
             (fun t => armed d0 t \/ released d0 t)).
    + intros e' t He' Ht. apply negb_true_iff in He'.
      destruct (hw_step_tick_only d0 e' t He') as [Ha' Hr'].
      destruct Ht; [left | right]; auto.
    + now apply irq_count_zero.
    + now apply hw_step_armed.
  - apply IH; [exact Hc |]. now apply hw_step_tick_only.
Qed.

Lemma reset_delay_poll_armed (d0 : Z) (env : Env) :
  forall t start now s s' env',
    Forall (fun sl => (irq_count sl <= 1)%nat) env ->
    armed d0 s \/ released d0 s ->
    reset_delay_poll t start now env s = Some (s', env') ->
    armed d0 s' \/ released d0 s'.
Proof.
  induction env as [| sl env IH]; intros t start now s s' env' Hc Hs Hrun;
    cbn in Hrun;
    destruct ((u32 (now - start) <? t) && inReset s) eqn:Hgo;
    try discriminate; try (inversion Hrun; subst; exact Hs).
  apply andb_true_iff in Hgo as [_ Hr].
  inversion Hc; subst.
  eapply IH; [eassumption | | exact Hrun].
  destruct Hs as [Ha | (_ & _ & Hrel)]; [| congruence].
  now apply hw_run_armed.
Qed.

(** When interrupts are served at the polls of the two waits only, at most
    one per poll, [open] after [close] leaves the buffer empty and the
    discard counter as it was. *)
Lemma close_then_open_state
  (i j : Instance) (env env' : Env) (s s' : State) (r : Z) :
  Forall (fun sl => (irq_count sl <= 1)%nat) env ->
  open (hal j) env (close (hal i) s) = Some (s', r, env') ->
  r = SH2_OK /\ rxBufLen s' = 0 /\ discards s' = discards s.
Proof.
  intros Hc Hopen.
  set (s0 := close (hal i) s) in *.
  assert (Hclosed : isOpen s0 = false) by (destruct i; reflexivity).
  assert (Hmask : irqEXTI15_10 (hw s0) = false) by (destruct i; reflexivity).
  assert (Hd0 : discards s0 = discards s) by (destruct i; reflexivity).
  clearbody s0. rewrite <- Hd0. clear Hd0 s i.
  destruct (open_arms j env s0 s' r env' Hclosed Hopen) as (Hr & _ & _).
  split; [exact Hr |].
  pose (P1 := fun t : State =>
    (i2cBusState t = BUS_INIT /\ outstanding t = [])
    /\ discards t = discards s0).
  assert (Hstep1 : forall e t, P1 t -> P1 (hw_step e t)).
  { intros e t [Hi Hd]. split; [now apply hw_step_init |].
    rewrite hw_step_init_discards; [exact Hd | apply Hi]. }
  open_waits j Hclosed Hopen.
  - assert (Hsplit := delay_poll_shape _ _ _ _ _ _ _ E1).
    destruct Hsplit as (pre & Hsplit & _).
    apply (delay_poll_inv P1 Hstep1) in E1; [| now repeat split].
    destruct E1 as (_ & Hd).
    assert (Hc1 : Forall (fun sl => (irq_count sl <= 1)%nat) e1).
    { rewrite Hsplit in Hc. now apply Forall_app in Hc. }
    apply (reset_delay_poll_armed (discards s0) _ _ _ _ _ _ _ Hc1) in E2.
    + destruct E2 as [(_ & Hl & Hk) | (Hl & Hk & _)]; now split.
    + left. unfold armed. fields. repeat split. exact Hd.
  - pose (P2 := fun t : State =>
      irqEXTI15_10 (hw t) = false /\ i2cBusState t = BUS_IDLE
      /\ rxBufLen t = 0 /\ discards t = discards s0).
    assert (Hstep2 : forall e t, P2 t -> P2 (hw_step e t)).
    { intros e t (Hm & Hi & Hl & Hk).
      destruct (hw_step_masked_idle e t Hm Hi) as (Hi' & Hl' & Hk' & _).
      unfold P2. rewrite hw_step_irqEXTI. repeat split; congruence. }
    assert (Hm1 : irqEXTI15_10 (hw t1) = false).
    { apply (delay_poll_inv (fun t => irqEXTI15_10 (hw t) = false))
        in E1; [exact E1 | | exact Hmask].
      intros e t Ht. now rewrite hw_step_irqEXTI. }
    apply (delay_poll_inv P1 Hstep1) in E1; [| now repeat split].
    destruct E1 as (_ & Hd).
    apply (delay_poll_inv P2 Hstep2) in E2.
    + destruct E2 as (_ & _ & Hl & Hk). now split.
    + unfold P2. fields. repeat split; assumption.
Qed.


(** ** The data-ready edge under the two instances *)

Lemma hw_step_i2cAddr (e : HwEvent) (s : State) :
  i2cAddr (hw_step e s) = i2cAddr s.
Proof.
  open_state s. destruct e, st; case_xfers xf; step_cases; split_ifs;
    reflexivity.
Qed.

Lemma act_i2cAddr (a : Action) (s : State) : i2cAddr (act a s) = i2cAddr s.
Proof.
  destruct a as [e | c]; [apply hw_step_i2cAddr |].
  open_state s. cbn [act].
  destruct c as [[] b len t | [] [data |] len], st; call_cases; split_ifs;
    reflexivity.
Qed.

(** C7, as the code has it.  The edge callback does not look at the
    instance that is open.  After a successful [open] of either instance
    and any run of events and calls, an edge handled in [BUS_IDLE] moves to
    [BUS_READING_LEN] and starts the two-byte length read at that
    instance's address, leaving the pending flag as it was.  What differs
    is the interrupt line: [open] of the SH2 instance enables it, [open] of
    the DFU instance leaves it as it found it, and on a masked line an edge
    runs no handler. *)
Theorem edge_in_idle_starts_length_read
  (i : Instance) (n : Z) (env env' : Env) (s0 s : State) (r : Z)
  (l : list Action) :
  isOpen s0 = false ->
  open (hal i) env s0 = Some (s, r, env') ->
  irqEXTI15_10 (hw s)
  = match i with sh2Hal => true | dfuHal => irqEXTI15_10 (hw s0) end
  /\ (irqEXTI15_10 (hw (run l s)) = false ->
      hw_step IntnEdge (run l s) = run l s)
  /\ (i2cBusState (run l s) = BUS_IDLE ->
      let t := HAL_GPIO_EXTI_Callback n (run l s) in
      i2cBusState t = BUS_READING_LEN
      /\ outstanding t = [mkXfer XferRx (address_of i) READ_LEN]
      /\ rxDataReady t = rxDataReady (run l s)).
Proof.
  intros Hclosed Hopen.
  destruct (open_arms i env s0 s r env' Hclosed Hopen) as (_ & _ & Hb).
  assert (Hbus : bus_ok (run l s) = true).
  { apply (run_inv (fun t => bus_ok t = true)); [| exact Hb].
    intros a t. apply act_bus_ok. }
  assert (Hfacts : irqEXTI15_10 (hw s)
            = match i with sh2Hal => true
                         | dfuHal => irqEXTI15_10 (hw s0) end
            /\ i2cAddr s = address_of i).
  { pose (P := fun t : State =>
      irqEXTI15_10 (hw t)
      = match i with sh2Hal => true | dfuHal => irqEXTI15_10 (hw s0) end
      /\ i2cAddr t = address_of i).
    assert (HP : forall e t, P t -> P (hw_step e t)).
    { intros e t [H1 H2]. unfold P.
      now rewrite hw_step_irqEXTI, hw_step_i2cAddr. }
    clear Hb Hbus.
    open_waits i Hclosed Hopen;
      apply (delay_poll_inv P HP) in E1; try (now split).
    - apply (reset_delay_poll_inv P HP) in E2; [exact E2 | exact E1].
    - apply (delay_poll_inv P HP) in E2; [exact E2 | exact E1]. }
  destruct Hfacts as [Hirq Haddr].
  assert (Ha : i2cAddr (run l s) = address_of i).
  { apply (run_inv (fun t => i2cAddr t = address_of i)); [| exact Haddr].
    intros a t Ht. now rewrite act_i2cAddr. }
  split; [exact Hirq |]. split.
  - intros Hm. unfold hw_step. now rewrite Hm.
  - revert Hbus Ha. generalize (run l s). intros t Hbus Ha Hidle.
    open_state t. unfold bus_ok in Hbus. fields. subst st ad.
    destruct xf; [| discriminate Hbus].
    unfold HAL_GPIO_EXTI_Callback. fields. split_ifs; repeat split.
Qed.

(** ** Whole exchanges *)

Lemma run_app (l1 l2 : list Action) (s : State) :
  run (l1 ++ l2) s = run l2 (run l1 s).
Proof. unfold run. apply fold_left_app. Qed.

(** The header of a frame, from the idle driver: the length is decoded, an
    unread frame is dropped and counted. *)
Lemma header_phase (s : State) (a b : Z) (b0 b1 : byte) (more : list byte) :
  listening s -> i2cBusState s = BUS_IDLE ->
  2 <= SH2_HAL_MAX_TRANSFER_IN ->
  let s1 := run (header_arrival a b (b0 :: b1 :: more)) s in
  listening s1 /\ i2cBusState s1 = BUS_GOT_LEN
  /\ payloadLen s1 = announced b0 b1
  /\ rxBufLen s1 = 0
  /\ discards s1
     = (if 0 <? rxBufLen s then u32 (discards s + 1) else discards s)
  /\ rxTimestamp_uS s1 = u32 (timeNowUs s + a)
  /\ timeNowUs s1 = u32 (timeNowUs s + a + b)
  /\ rxDataReady s1 = rxDataReady s.
Proof.
  unfold listening, announced. open_state s. fields.
  intros (-> & -> & -> & -> & Hlen & Hrx) -> Hcap.
  assert (Hm : memcpy rb (b0 :: b1 :: more) READ_LEN
               = b0 :: b1 :: skipn 2 rb).
  { rewrite memcpy_fits; [reflexivity | |]; cbn; lia. }
  assert (Hl : Z.of_nat (length (b0 :: b1 :: skipn 2 rb))
               = SH2_HAL_MAX_TRANSFER_IN).
  { now rewrite <- Hm, memcpy_length. }
  cbv zeta. unfold header_arrival, run. cbn [fold_left]. unfold act.
  destruct (length_field b0 b1) as [Hf Hr].
  destruct (Z.ltb_spec 0 rl) as [Hrl | Hrl];
    [ assert (Hb : (0 <? rl) = true) by now apply Z.ltb_lt
    | assert (Hb : (0 <? rl) = false) by now apply Z.ltb_ge ];
    step_cases; rewrite ?Hb;
    repeat (progress (fields; cbn [app]));
    rewrite Hm; cbn [nth]; rewrite Hf;
    split_ifs_spec; repeat split; try reflexivity; try assumption;
    try apply u32_add_l; try lia; try (rewrite u16_small by lia; lia).
Qed.

(** The payload of a frame, once its length is known. *)
Lemma payload_phase (s : State) (c d : Z) (data : list byte) :
  listening s -> i2cBusState s = BUS_GOT_LEN ->
  0 <= payloadLen s ->
  let s2 := run (payload_arrival c d data) s in
  listening s2 /\ i2cBusState s2 = BUS_IDLE
  /\ rxBufLen s2 = payloadLen s
  /\ rxBuf s2 = memcpy (rxBuf s) data (payloadLen s)
  /\ discards s2 = discards s
  /\ rxTimestamp_uS s2 = u32 (timeNowUs s + c)
  /\ timeNowUs s2 = u32 (timeNowUs s + c + d)
  /\ rxDataReady s2 = rxDataReady s.
Proof.
  unfold listening. open_state s. fields.
  intros (-> & -> & -> & -> & Hlen & Hrx) -> Hp.
  cbv zeta. unfold payload_arrival, run. cbn [fold_left]. unfold act.
  step_cases. repeat (progress (fields; cbn [app])).
  repeat split; try reflexivity; try assumption.
  - now rewrite memcpy_length.
  - apply u32_add_l.
Qed.

(** A frame from announcement to completion. *)
Lemma frame_phase
  (s : State) (a b c d : Z) (b0 b1 : byte) (more data : list byte) :
  listening s -> i2cBusState s = BUS_IDLE ->
  2 <= SH2_HAL_MAX_TRANSFER_IN ->
  let s' := run (frame_arrival a b c d (b0 :: b1 :: more) data) s in
  listening s' /\ i2cBusState s' = BUS_IDLE
  /\ rxBufLen s' = announced b0 b1
  /\ (announced b0 b1 <= Z.of_nat (length data) ->
      firstn (Z.to_nat (announced b0 b1)) (rxBuf s')
      = firstn (Z.to_nat (announced b0 b1)) data)
  /\ discards s'
     = (if 0 <? rxBufLen s then u32 (discards s + 1) else discards s)
  /\ rxTimestamp_uS s' = u32 (timeNowUs s + a + b + c)
  /\ rxDataReady s' = rxDataReady s
  /\ 0 <= announced b0 b1 < 2 ^ 15.
Proof.
  intros Hs Hidle Hcap. cbv zeta. unfold frame_arrival. rewrite run_app.
  destruct (header_phase s a b b0 b1 more Hs Hidle Hcap)
    as (Hl1 & Hg & Hp & Hz & Hd & _ & Ht & Hf).
  set (s1 := run (header_arrival a b (b0 :: b1 :: more)) s) in *.
  assert (Hr : 0 <= announced b0 b1 < 2 ^ 15).
  { unfold announced. destruct (length_field b0 b1) as [_ Hr]. lia. }
  assert (Hp0 : 0 <= payloadLen s1) by lia.
  destruct (payload_phase s1 c d data Hl1 Hg Hp0)
    as (Hl2 & Hi & Hn & Hb & Hd2 & Hts & _ & Hf2).
  set (s2 := run (payload_arrival c d data) s1) in *.
  assert (Hfit : (Z.to_nat (announced b0 b1) <= length (rxBuf s1))%nat).
  { destruct Hl1 as (_ & _ & _ & _ & Hlen & _).
    unfold announced in *. lia. }
  split; [exact Hl2 |]. split; [exact Hi |]. split; [congruence |].
  split.
  { intros Hdata. rewrite Hb, Hp. apply memcpy_copies; lia. }
  split; [congruence |]. split.
  { rewrite Hts, Ht. apply u32_add_l. }
  split; [congruence | exact Hr].
Qed.

(** [read] of the SH2 instance when a frame of [L] bytes is buffered and
    the caller has room for it. *)
Lemma read_buffered_frame
  (s : State) (L : Z) (pBuffer : list byte) (len t : Z) :
  rxBufLen s = L -> 0 < L < 2 ^ 15 ->
  L <= Z.of_nat (length (rxBuf s)) ->
  L <= len -> len <= Z.of_nat (length pBuffer) ->
  let out := snd (sh2_i2c_hal_read pBuffer len t s) in
  retval out = L
  /\ firstn (Z.to_nat L) (outBuffer out) = firstn (Z.to_nat L) (rxBuf s)
  /\ skipn (Z.to_nat L) (outBuffer out) = skipn (Z.to_nat L) pBuffer
  /\ outTime out = rxTimestamp_uS s
  /\ rxBufLen (fst (sh2_i2c_hal_read pBuffer len t s)) = 0.
Proof.
  intros Hn Hr Hsrc Hlen Hbuf. cbv zeta.
  rewrite sh2_read_out, sh2_read_rxBufLen, Hn.
  destruct (Z.ltb_spec 0 L) as [_ | ?]; [| lia].
  destruct (Z.ltb_spec len L) as [? | _]; [lia |].
  fields. rewrite to_int_small by lia.
  destruct (memcpy_copies pBuffer (rxBuf s) L) as [H1 H2]; try lia.
  repeat split; assumption.
Qed.

(** X1.  A frame reaches the client whole.  From the idle driver, the
    edge, the header announcing [L] > 0 bytes, the second edge and the
    payload make [read] of the SH2 instance return [L], deliver the first
    [L] bytes of the payload and empty the buffer.  The time delivered is
    the counter at the second edge, the one that started the payload read,
    not at the edge that announced the frame. *)
Theorem frame_delivered
  (s : State) (a b c d : Z) (b0 b1 : byte) (more data pBuffer : list byte)
  (len t : Z) :
  listening s -> i2cBusState s = BUS_IDLE ->
  2 <= SH2_HAL_MAX_TRANSFER_IN ->
  0 < announced b0 b1 ->
  announced b0 b1 <= Z.of_nat (length data) ->
  announced b0 b1 <= len < 2 ^ 32 ->
  len <= Z.of_nat (length pBuffer) ->
  let s' := run (frame_arrival a b c d (b0 :: b1 :: more) data) s in
  let out := snd (sh2_i2c_hal_read pBuffer len t s') in
  retval out = announced b0 b1
  /\ firstn (Z.to_nat (announced b0 b1)) (outBuffer out)
     = firstn (Z.to_nat (announced b0 b1)) data
  /\ skipn (Z.to_nat (announced b0 b1)) (outBuffer out)
     = skipn (Z.to_nat (announced b0 b1)) pBuffer
  /\ outTime out = u32 (timeNowUs s + a + b + c)
  /\ rxBufLen (fst (sh2_i2c_hal_read pBuffer len t s')) = 0.
Proof.
  intros Hs Hidle Hcap Hpos Hdata Hlen Hbuf. cbv zeta.
  destruct (frame_phase s a b c d b0 b1 more data Hs Hidle Hcap)
    as (Hl & _ & Hn & Hfirst & _ & Hts & _ & Hr).
  specialize (Hfirst Hdata).
  set (s' := run (frame_arrival a b c d (b0 :: b1 :: more) data) s) in *.
  assert (Hle : announced b0 b1 <= SH2_HAL_MAX_TRANSFER_IN)
    by (unfold announced; lia).
  destruct Hl as (_ & _ & _ & _ & Hrb & _).
  destruct (read_buffered_frame s' (announced b0 b1) pBuffer len t Hn
              ltac:(lia) ltac:(lia) ltac:(lia) Hbuf)
    as (H1 & H2 & H3 & H4 & H5).
  repeat split; try assumption; congruence.
Qed.

Lemma edge_on_empty_buffer (s : State) :
  irqEXTI15_10 (hw s) = true -> i2cBusState s = BUS_IDLE ->
  rxBufLen s = 0 ->
  discards (hw_step IntnEdge s) = discards s.
Proof.
  open_state s. fields. intros -> -> ->. step_cases. reflexivity.
Qed.

(** X2.  A frame announced with length zero is received but never shown:
    after it the driver is idle with an empty buffer, [read] of the SH2
    instance returns 0 and leaves the caller's buffer alone, and the next
    edge counts no discard. *)
Theorem zero_length_frame_is_silent
  (s : State) (a b c d : Z) (b0 b1 : byte) (more data pBuffer : list byte)
  (len t : Z) :
  listening s -> i2cBusState s = BUS_IDLE ->
  2 <= SH2_HAL_MAX_TRANSFER_IN ->
  announced b0 b1 = 0 ->
  let s' := run (frame_arrival a b c d (b0 :: b1 :: more) data) s in
  let out := snd (sh2_i2c_hal_read pBuffer len t s') in
  i2cBusState s' = BUS_IDLE /\ rxBufLen s' = 0
  /\ retval out = 0 /\ outBuffer out = pBuffer
  /\ discards (hw_step IntnEdge s') = discards s'.
Proof.
  intros Hs Hidle Hcap Hzero. cbv zeta.
  destruct (frame_phase s a b c d b0 b1 more data Hs Hidle Hcap)
    as (Hl & Hi & Hn & _).
  set (s' := run (frame_arrival a b c d (b0 :: b1 :: more) data) s) in *.
  rewrite Hzero in Hn.
  split; [exact Hi |]. split; [exact Hn |].
  rewrite sh2_read_out, Hn. cbn [Z.ltb Z.compare]. fields.
  split; [reflexivity |]. split; [reflexivity |].
  apply edge_on_empty_buffer; [apply Hl | exact Hi | exact Hn].
Qed.

(** X3.  The freshest frame wins.  When a second frame arrives before the
    first was read, the discard counter goes up by one and [read] of the
    SH2 instance delivers the second frame; the first is lost. *)
Theorem unread_frame_replaced
  (s : State) (a b c d a' b' c' d' : Z) (b0 b1 c0 c1 : byte)
  (more data more' data' pBuffer : list byte) (len t : Z) :
  listening s -> i2cBusState s = BUS_IDLE -> rxBufLen s = 0 ->
  2 <= SH2_HAL_MAX_TRANSFER_IN ->
  0 < announced b0 b1 ->
  0 < announced c0 c1 ->
  announced c0 c1 <= Z.of_nat (length data') ->
  announced c0 c1 <= len ->
  len <= Z.of_nat (length pBuffer) ->
  let s' :=
    run (frame_arrival a b c d (b0 :: b1 :: more) data
         ++ frame_arrival a' b' c' d' (c0 :: c1 :: more') data') s in
  let out := snd (sh2_i2c_hal_read pBuffer len t s') in
  discards s' = u32 (discards s + 1)
  /\ retval out = announced c0 c1
  /\ firstn (Z.to_nat (announced c0 c1)) (outBuffer out)
     = firstn (Z.to_nat (announced c0 c1)) data'.
Proof.
  intros Hs Hidle Hempty Hcap Hpos1 Hpos2 Hdata Hlen Hbuf. cbv zeta.
  rewrite run_app.
  destruct (frame_phase s a b c d b0 b1 more data Hs Hidle Hcap)
    as (Hl1 & Hi1 & Hn1 & _ & Hd1 & _).
  set (s1 := run (frame_arrival a b c d (b0 :: b1 :: more) data) s) in *.
  destruct (frame_phase s1 a' b' c' d' c0 c1 more' data' Hl1 Hi1 Hcap)
    as (Hl2 & _ & Hn2 & Hfirst & Hd2 & _ & _ & Hr).
  set (s2 := run (frame_arrival a' b' c' d' (c0 :: c1 :: more') data') s1)
    in *.
  specialize (Hfirst Hdata).
  rewrite Hempty in Hd1. cbn [Z.ltb Z.compare] in Hd1.
  rewrite Hn1 in Hd2.
  destruct (Z.ltb_spec 0 (announced b0 b1)) as [_ | ?]; [| lia].
  assert (Hle : announced c0 c1 <= SH2_HAL_MAX_TRANSFER_IN)
    by (unfold announced; lia).
  destruct Hl2 as (_ & _ & _ & _ & Hrb & _).
  destruct (read_buffered_frame s2 (announced c0 c1) pBuffer len t Hn2
              ltac:(lia) ltac:(lia) Hlen Hbuf)
    as (H1 & H2 & _).
  split; [congruence |]. split; [exact H1 | congruence].
Qed.

(** X4.  The discard counter moves in one place only.  Whatever the event
    or the client call, the counter changes only when an edge is served in
    the idle state while an unread frame is buffered; it then goes up by
    one (modulo 2^32) and the buffer is emptied. *)
Theorem discard_only_on_overrun (a : Action) (s : State) :
  discards (act a s) <> discards s ->
  a = Event IntnEdge
  /\ irqEXTI15_10 (hw s) = true /\ i2cBusState s = BUS_IDLE
  /\ 0 < rxBufLen s
  /\ discards (act a s) = u32 (discards s + 1)
  /\ rxBufLen (act a s) = 0.
Proof.
  open_state s.
  destruct a as [[us | | rx |] | [[] b len t | [] [data |] len]], st;
    case_xfers xf; unfold act; step_cases; call_cases; split_ifs_spec;
    intros Hne; try (exfalso; apply Hne; reflexivity);
    repeat split; assumption.
Qed.

(** ** Client read of the DFU instance *)

(** X5.  [read] of the DFU instance, case by case.  With a frame of [N]
    bytes buffered and no fixed-length read in flight, it behaves like
    [read] of the SH2 instance (too small a capacity drops the frame,
    otherwise the frame is copied out with the time word) and starts
    nothing.  With nothing to deliver and the bus idle, it returns 0 and
    starts a read of [len] modulo 2^16 bytes, whatever the size of the
    receive buffer.  In every other case it returns 0 and changes
    nothing. *)
Theorem dfu_read_contract (s : State) (pBuffer : list byte) (len t : Z) :
  0 <= len < 2 ^ 32 ->
  0 <= rxBufLen s < 2 ^ 16 ->
  let N := rxBufLen s in
  let s' := fst (dfu_i2c_hal_read pBuffer len t s) in
  let out := snd (dfu_i2c_hal_read pBuffer len t s) in
  (i2cBusState s <> BUS_READING_DFU -> 0 < N -> len < N ->
     retval out = SH2_ERR_BAD_PARAM /\ outBuffer out = pBuffer
     /\ outTime out = t /\ s' = set_rxBufLen 0 s)
  /\ (i2cBusState s <> BUS_READING_DFU -> 0 < N -> N <= len ->
        retval out = N /\ outTime out = rxTimestamp_uS s
        /\ s' = set_rxBufLen 0 s
        /\ (N <= Z.of_nat (length (rxBuf s)) ->
            len <= Z.of_nat (length pBuffer) ->
            firstn (Z.to_nat N) (outBuffer out)
            = firstn (Z.to_nat N) (rxBuf s)
            /\ skipn (Z.to_nat N) (outBuffer out)
               = skipn (Z.to_nat N) pBuffer))
  /\ (i2cBusState s = BUS_IDLE -> N = 0 ->
        retval out = 0 /\ outBuffer out = pBuffer
        /\ i2cBusState s' = BUS_READING_DFU
        /\ payloadLen s' = u16 len
        /\ outstanding s'
           = outstanding s ++ [mkXfer XferRx (i2cAddr s) (u16 len)]
        /\ rxBufLen s' = 0)
  /\ (i2cBusState s <> BUS_IDLE ->
      N = 0 \/ i2cBusState s = BUS_READING_DFU ->
        retval out = 0 /\ outBuffer out = pBuffer /\ s' = s).
Proof.
  intros Hlen HN N s' out. subst N s' out. unfold dfu_i2c_hal_read.
  destruct (Z.ltb_spec 0 (rxBufLen s)) as [Hpos | Hzero];
    destruct (Z.ltb_spec len (rxBufLen s)) as [Hsmall | Hfit];
    destruct (i2cBusState s) eqn:Hst;
    cbn [BusState_eqb negb andb]; fields;
    repeat split; intros; try congruence; try lia;
    try reflexivity;
    try (rewrite to_int_small by lia; reflexivity);
    try (apply memcpy_copies; lia);
    try match goal with
        | H : _ \/ _ |- _ => destruct H; [lia | congruence]
        end.
Qed.

(** X6.  A fixed-length read of the DFU instance, from request to
    delivery.  From the idle driver with an empty buffer, [read] asking for
    [len] bytes returns 0 and starts the transfer; while the transfer is
    in flight further [read] calls return 0 and change nothing; once the
    completion is served, [read] returns [len] with the first [len] bytes
    received and leaves the driver idle with an empty buffer. *)
Theorem dfu_read_round_trip
  (s : State) (len cap t1 t : Z) (data p1 pBuffer : list byte) :
  i2cBusState s = BUS_IDLE -> outstanding s = [] -> rxBufLen s = 0 ->
  irqI2C1_EV (hw s) = true ->
  0 < len < 2 ^ 15 ->
  len <= Z.of_nat (length (rxBuf s)) ->
  len <= Z.of_nat (length data) ->
  len <= cap -> cap <= Z.of_nat (length pBuffer) ->
  let s1 := fst (dfu_i2c_hal_read p1 len t1 s) in
  let s2 := hw_step (I2cRxDone data) s1 in
  let s3 := fst (dfu_i2c_hal_read pBuffer cap t s2) in
  let out := snd (dfu_i2c_hal_read pBuffer cap t s2) in
  retval (snd (dfu_i2c_hal_read p1 len t1 s)) = 0
  /\ (forall p c u, dfu_i2c_hal_read p c u s1 = (s1, mkReadOut 0 p u))
  /\ retval out = len
  /\ firstn (Z.to_nat len) (outBuffer out) = firstn (Z.to_nat len) data
  /\ i2cBusState s3 = BUS_IDLE /\ outstanding s3 = [] /\ rxBufLen s3 = 0.
Proof.
  open_state s. fields. intros -> -> -> -> Hlen Hrb Hdata Hcap Hbuf.
  cbv zeta.
  assert (Hu : u16 len = len) by (apply u16_small; lia).
  assert (Hpos : (0 <? len) = true) by (apply Z.ltb_lt; lia).
  assert (Hfit : (cap <? len) = false) by (apply Z.ltb_ge; lia).
  unfold dfu_i2c_hal_read. fields.
  cbn [BusState_eqb negb andb Z.ltb Z.compare]. fields.
  split; [reflexivity |]. split; [reflexivity |].
  step_cases. cbn [app]. fields. rewrite Hu.
  cbn [BusState_eqb negb andb]. rewrite Hpos, Hfit. fields.
  rewrite to_int_small by lia.
  split; [reflexivity |]. split; [| now repeat split].
  destruct (memcpy_copies pBuffer (memcpy rb data len) len) as [H1 _];
    try (rewrite ?memcpy_length; lia).
  rewrite H1. apply memcpy_copies; lia.
Qed.

(** ** The pending flag *)

(** X7.  Only [read] of the SH2 instance takes up a deferred read.  When
    the pending flag is set and an event or a client call leaves it clear,
    that call was a [read] of the SH2 instance in [BUS_IDLE] or
    [BUS_GOT_LEN], and it started one transfer. *)
Theorem pending_cleared_only_by_read (a : Action) (s : State) :
  rxDataReady s = true ->
  rxDataReady (act a s) = false ->
  (exists b len t, a = Client (CallRead sh2Hal b len t))
  /\ (i2cBusState s = BUS_IDLE \/ i2cBusState s = BUS_GOT_LEN)
  /\ length (outstanding (act a s)) = S (length (outstanding s)).
Proof.
  open_state s. fields. intros ->.
  destruct a as [[us | | rx |] | [[] b len t | [] [data |] len]], st;
    case_xfers xf; unfold act; step_cases; call_cases; split_ifs;
    intros Hc; try discriminate Hc;
    (split; [eexists; eexists; eexists; reflexivity |]);
    (split; [auto |]); rewrite length_app; cbn [length]; lia.
Qed.

(** X8.  The completion callbacks and the counter start nothing.  An event
    other than the data-ready edge leaves the pending flag as it is and
    never adds a transfer: a read deferred while the bus was busy is not
    taken up when the bus becomes free. *)
Theorem completion_starts_nothing (e : HwEvent) (s : State) :
  no_edge e = true ->
  rxDataReady (hw_step e s) = rxDataReady s
  /\ (length (outstanding (hw_step e s)) <= length (outstanding s))%nat
  /\ (i2cBusState (hw_step e s) = i2cBusState s
      \/ i2cBusState (hw_step e s) = BUS_IDLE
      \/ i2cBusState (hw_step e s) = BUS_GOT_LEN).
Proof.
  open_state s. intros He.
  destruct e, st; try discriminate He; case_xfers xf; step_cases;
    split_ifs; cbn [length]; repeat split; auto.
Qed.

(** ** Writes in a row *)

Lemma write_args_ok (len : Z) :
  0 < len <= SH2_HAL_MAX_TRANSFER_OUT ->
  (len =? 0) || (SH2_HAL_MAX_TRANSFER_OUT <? len) = false.
Proof.
  intros H. apply orb_false_iff.
  split; [apply Z.eqb_neq | apply Z.ltb_ge]; lia.
Qed.

Lemma write_in_idle (i : Instance) (s : State) (data : list byte) (len : Z) :
  i2cBusState s = BUS_IDLE ->
  0 < len <= SH2_HAL_MAX_TRANSFER_OUT ->
  let s1 := fst (write (hal i) (Some data) len s) in
  snd (write (hal i) (Some data) len s) = to_int len
  /\ (i2cBusState s1 = BUS_WRITING \/ i2cBusState s1 = BUS_WRITING_DFU)
  /\ outstanding s1 = outstanding s ++ [mkXfer XferTx (i2cAddr s) (u16 len)]
  /\ txBuf s1 = memcpy (txBuf s) data len
  /\ irqI2C1_EV (hw s1) = true.
Proof.
  intros Hst Hlen. cbv zeta. pose proof (write_args_ok len Hlen) as Hok.
  destruct i; cbn [hal write sh2_hal_init dfu_hal_init];
    unfold sh2_i2c_hal_write, dfu_i2c_hal_write; rewrite Hok; fields;
    rewrite Hst; fields; repeat split; auto.
Qed.

Lemma write_when_busy (j : Instance) (s : State) (data : list byte)
  (len : Z) :
  i2cBusState s <> BUS_IDLE ->
  0 < len <= SH2_HAL_MAX_TRANSFER_OUT ->
  let s1 := fst (write (hal j) (Some data) len s) in
  snd (write (hal j) (Some data) len s) = 0
  /\ txBuf s1 = txBuf s /\ outstanding s1 = outstanding s
  /\ i2cBusState s1 = i2cBusState s.
Proof.
  intros Hst Hlen. cbv zeta. pose proof (write_args_ok len Hlen) as Hok.
  destruct j; cbn [hal write sh2_hal_init dfu_hal_init];
    unfold sh2_i2c_hal_write, dfu_i2c_hal_write; rewrite Hok; fields;
    destruct (i2cBusState s) eqn:E; try congruence; fields;
    rewrite ?E; repeat split.
Qed.

Lemma tx_done_after_write (s : State) (x : Xfer) :
  i2cBusState s = BUS_WRITING \/ i2cBusState s = BUS_WRITING_DFU ->
  outstanding s = [x] -> xDir x = XferTx ->
  irqI2C1_EV (hw s) = true ->
  i2cBusState (hw_step I2cTxDone s) = BUS_IDLE
  /\ outstanding (hw_step I2cTxDone s) = []
  /\ txBuf (hw_step I2cTxDone s) = txBuf s.
Proof.
  open_state s. destruct x as [dir ax sz]. fields. cbn [xDir].
  intros Hst -> -> ->. step_cases.
  destruct Hst as [-> | ->]; repeat split.
Qed.

(** X9.  One write at a time.  A [write] accepted in [BUS_IDLE] keeps the
    bus until its completion is served: until then [write] of either
    instance returns 0 and leaves the transmit buffer alone; after the
    completion the driver is idle again, the transmit buffer still holds
    the payload, and the next [write] is accepted. *)
Theorem write_until_completion
  (i j : Instance) (s : State) (data data2 : list byte) (len len2 : Z) :
  i2cBusState s = BUS_IDLE -> outstanding s = [] ->
  SH2_HAL_MAX_TRANSFER_OUT < 2 ^ 31 ->
  0 < len <= SH2_HAL_MAX_TRANSFER_OUT ->
  0 < len2 <= SH2_HAL_MAX_TRANSFER_OUT ->
  let s1 := fst (write (hal i) (Some data) len s) in
  let s2 := hw_step I2cTxDone s1 in
  snd (write (hal i) (Some data) len s) = len
  /\ snd (write (hal j) (Some data2) len2 s1) = 0
  /\ txBuf (fst (write (hal j) (Some data2) len2 s1)) = txBuf s1
  /\ outstanding (fst (write (hal j) (Some data2) len2 s1)) = outstanding s1
  /\ i2cBusState s2 = BUS_IDLE /\ outstanding s2 = []
  /\ txBuf s2 = memcpy (txBuf s) data len
  /\ snd (write (hal j) (Some data2) len2 s2) = len2.
Proof.
  intros Hidle Hout Hcap Hlen Hlen2. cbv zeta.
  destruct (write_in_idle i s data len Hidle Hlen)
    as (Hret & Hst1 & Hout1 & Htx1 & Hirq1).
  set (s1 := fst (write (hal i) (Some data) len s)) in *.
  rewrite Hout in Hout1. cbn [app] in Hout1.
  assert (Hbusy : i2cBusState s1 <> BUS_IDLE)
    by (destruct Hst1 as [H | H]; rewrite H; discriminate).
  destruct (write_when_busy j s1 data2 len2 Hbusy Hlen2)
    as (Hret2 & Htx2 & Hout2 & _).
  destruct (tx_done_after_write s1 _ Hst1 Hout1 eq_refl Hirq1)
    as (Hidle2 & Hout3 & Htx3).
  set (s2 := hw_step I2cTxDone s1) in *.
  destruct (write_in_idle j s2 data2 len2 Hidle2 Hlen2) as (Hret3 & _).
  rewrite Hret, Hret3, !to_int_small by lia.
  repeat split; try assumption; congruence.
Qed.

(** ** After [close] *)

Lemma hw_step_closed (i : Instance) (e : HwEvent) (s : State) :
  hw_step e (close (hal i) s) = close (hal i) s.
Proof. destruct i, e; reflexivity. Qed.

(** X10.  A closed driver is inert.  After [close] of either instance all
    three interrupt lines are masked and the counter is stopped, so that no
    hardware event changes anything; and closing again changes nothing. *)
Theorem closed_driver_is_inert (i : Instance) (sl : Slice) (s : State) :
  hw_run sl (close (hal i) s) = close (hal i) s
  /\ close (hal i) (close (hal i) s) = close (hal i) s
  /\ isOpen (close (hal i) s) = false
  /\ outstanding (close (hal i) s) = [].
Proof.
  split; [| split; [| split]].
  - apply (hw_run_inv (fun t => t = close (hal i) s)); [| reflexivity].
    intros e t ->. apply hw_step_closed.
  - destruct i; reflexivity.
  - destruct i; reflexivity.
  - destruct i; reflexivity.
Qed.

(** X11.  [close] always makes room for [open].  Whatever the state, after
    [close] of either instance [open] of either instance is accepted: with
    a running counter it returns [SH2_OK] with the flag set and the bus
    state in agreement with the bus. *)
Theorem reopen_after_close
  (i j : Instance) (d : Z) (env : Env) (s : State) :
  0 < d ->
  Forall (paced d (2 ^ 32 - START_DELAY_US)) env ->
  RESET_DELAY_US + START_DELAY_US + 2 * d <= d * Z.of_nat (length env) ->
  exists s' env',
    open (hal j) env (close (hal i) s) = Some (s', SH2_OK, env')
    /\ isOpen s' = true /\ bus_ok s' = true.
Proof.
  intros Hd Hp Hlen.
  assert (Hclosed : isOpen (close (hal i) s) = false)
    by (destruct i; reflexivity).
  destruct (open_returns j d env (close (hal i) s) Hclosed Hd Hp Hlen)
    as (s' & env' & Hopen).
  exists s', env'. split; [exact Hopen |].
  now destruct (open_arms j env _ s' SH2_OK env' Hclosed Hopen)
    as (_ & Ho & Hb).
Qed.

(** ** The control pins *)

Lemma hw_step_pins (e : HwEvent) (s : State) :
  pins (hw (hw_step e s)) = pins (hw s).
Proof.
  open_state s. destruct e, st; case_xfers xf; step_cases; split_ifs;
    reflexivity.
Qed.

Lemma hw_step_irqI2C (e : HwEvent) (s : State) :
  irqI2C1_EV (hw (hw_step e s)) = irqI2C1_EV (hw s).
Proof.
  open_state s. destruct e, st; case_xfers xf; step_cases; split_ifs;
    reflexivity.
Qed.

(** X12.  [open] ends with the peripheral released into the right mode.
    When [open] of an instance returns past the already-open check, reset
    is released, BOOTN is high for the SH2 instance and low for the DFU
    instance, PS0/WAKEN, PS1 and CLKSEL0 are low, the counter runs and the
    bus interrupts are enabled; no event during the waits touches a pin.
    [close] of either instance leaves reset asserted. *)
Theorem open_sets_boot_pins
  (i j : Instance) (env env' : Env) (s s' t : State) (r : Z) :
  isOpen s = false ->
  open (hal i) env s = Some (s', r, env') ->
  pins (hw s') = boot_pins i
  /\ tim2_en (hw s') = true
  /\ irqI2C1_EV (hw s') = true
  /\ pinRSTN (pins (hw (close (hal j) t))) = false.
Proof.
  intros Hclosed Hopen.
  split; [| split; [| split; [| destruct j; reflexivity]]].
  - pose (P := fun (q : Pins) (u : State) => pins (hw u) = q).
    assert (HP : forall q e u, P q u -> P q (hw_step e u)).
    { intros q e u Hu. unfold P. now rewrite hw_step_pins. }
    pose (Q := fun u : State => pinCLKSEL0 (pins (hw u)) = false).
    assert (HQ : forall e u, Q u -> Q (hw_step e u)).
    { intros e u Hu. unfold Q. now rewrite hw_step_pins. }
    open_waits i Hclosed Hopen;
      apply (delay_poll_inv Q HQ) in E1; try reflexivity.
    + apply (reset_delay_poll_inv (P (boot_pins sh2Hal))
               (HP (boot_pins sh2Hal))) in E2; [exact E2 |].
      unfold P, Q in *. fields. rewrite E1. reflexivity.
    + apply (delay_poll_inv (P (boot_pins dfuHal))
               (HP (boot_pins dfuHal))) in E2; [exact E2 |].
      unfold P, Q in *. fields. rewrite E1. reflexivity.
  - pose (P := fun u : State => tim2_en (hw u) = true).
    assert (HP : forall e u, P u -> P (hw_step e u)).
    { intros e u Hu. unfold P. now rewrite hw_step_tim2_en. }
    open_waits i Hclosed Hopen;
      apply (delay_poll_inv P HP) in E1; try reflexivity.
    + apply (reset_delay_poll_inv P HP) in E2; [exact E2 | exact E1].
    + apply (delay_poll_inv P HP) in E2; [exact E2 | exact E1].
  - pose (P := fun u : State => irqI2C1_EV (hw u) = true).
    assert (HP : forall e u, P u -> P (hw_step e u)).
    { intros e u Hu. unfold P. now rewrite hw_step_irqI2C. }
    open_waits i Hclosed Hopen.
    + apply (delay_poll_inv P HP) in E1; [| reflexivity].
      apply (reset_delay_poll_inv P HP) in E2; [exact E2 | exact E1].
    + apply (delay_poll_inv P HP) in E2; [exact E2 | reflexivity].
Qed.

(** ** How long a busy wait lasts *)

Lemma delay_poll_elapsed (env : Env) :
  forall t start now s s' env',
    now = timeNowUs s ->
    delay_poll t start now env s = Some (s', env') ->
    t <= u32 (timeNowUs s' - start).
Proof.
  induction env as [| sl env IH]; intros t start now s s' env' Hnow Hrun;
    cbn in Hrun;
    destruct (Z.ltb_spec (u32 (now - start)) t) as [Hlt | Hge];
    try discriminate; try (inversion Hrun; subst; exact Hge).
  eapply IH; [| exact Hrun]. reflexivity.
Qed.

Lemma delay_poll_overshoot (d dmax t start : Z) :
  0 <= d -> dmax <= 2 ^ 32 - t ->
  forall env now s s' env',
    now = timeNowUs s ->
    tim2_en (hw s) = true ->
    Forall (paced d dmax) env ->
    u32 (now - start) < t ->
    delay_poll t start now env s = Some (s', env') ->
    u32 (timeNowUs s' - start) < t + dmax.
Proof.
  intros Hd Hmax env.
  induction env as [| sl env IH];
    intros now s s' env' Hnow Hen Hpaced Hlt Hrun; cbn in Hrun;
    destruct (Z.ltb_spec (u32 (now - start)) t) as [_ | Hge];
    try discriminate; try lia.
  inversion Hpaced as [| ? ? Hsl Hrest]; subst. unfold paced in Hsl.
  set (s1 := hw_run sl s) in *.
  assert (Hen1 : tim2_en (hw s1) = true)
    by (unfold s1; now apply hw_run_clock).
  assert (He : 0 <= u32 (timeNowUs s - start) < 2 ^ 32)
    by (unfold u32; apply Z.mod_pos_bound; lia).
  assert (Hel : u32 (timeNowUs s1 - start)
                = u32 (timeNowUs s - start) + advance sl).
  { unfold s1. rewrite elapsed_after_slice by exact Hen.
    apply u32_small. lia. }
  destruct (Z.lt_ge_cases (u32 (timeNowUs s1 - start)) t) as [Hl | Hg].
  - apply (IH (timeNowUs s1) s1 s' env' eq_refl Hen1 Hrest Hl Hrun).
  - destruct env as [| sl' env0]; cbn in Hrun;
      destruct (Z.ltb_spec (u32 (timeNowUs s1 - start)) t); try lia;
      inversion Hrun; subst; lia.
Qed.

(** X13.  [delay_us] waits long enough and not much longer.  With the
    counter running and every poll of the counter between [d] > 0 and
    [dmax] microseconds after the one before, [delay_us t] returns, and the
    time that passed, measured on the wrapping 32-bit counter, is at least
    [t] and less than [t + dmax], also across a wrap of the counter. *)
Theorem delay_us_waits (t d dmax : Z) (env : Env) (s : State) :
  0 < t -> 0 < d -> dmax <= 2 ^ 32 - t ->
  tim2_en (hw s) = true ->
  Forall (paced d dmax) env ->
  t <= d * Z.of_nat (length env) ->
  exists s' env',
    delay_us t env s = Some (s', env')
    /\ t <= u32 (timeNowUs s' - timeNowUs s) < t + dmax.
Proof.
  intros Ht Hd Hmax Hen Hp Hlen. unfold delay_us.
  assert (Hz : u32 (timeNowUs s - timeNowUs s) = 0)
    by (rewrite Z.sub_diag; reflexivity).
  destruct (delay_poll_total d dmax t (timeNowUs s) Hd Hmax env
              (timeNowUs s) s eq_refl Hen Hp ltac:(rewrite Hz; lia))
    as (s' & pre & env' & Hrun & _).
  exists s', env'. split; [exact Hrun |]. split.
  - exact (delay_poll_elapsed _ _ _ _ _ _ _ eq_refl Hrun).
  - apply (delay_poll_overshoot d dmax t (timeNowUs s) ltac:(lia) Hmax
             env (timeNowUs s) s s' env' eq_refl Hen Hp); [lia | exact Hrun].
Qed.

(** ** Room in the receive buffer *)

(** With the bus state and the bus in agreement, and buffered and announced
    lengths within the buffer, everything but a fixed-length read keeps
    receives within the buffer. *)
Lemma act_receives_fit (a : Action) (s : State) :
  2 <= SH2_HAL_MAX_TRANSFER_IN ->
  length_prefixed a = true ->
  bus_ok s = true -> frame_fits s -> receives_fit s ->
  receives_fit (act a s).
Proof.
  unfold frame_fits, receives_fit, bus_ok. open_state s. fields.
  intros Hcap Ha Hb (Hl & Hp & Hd & Hlen) Hx.
  destruct a as [[us | | rx |] | [[] b len t | [] [data |] len]], st;
    try discriminate Ha; try congruence;
    case_xfers xf; try discriminate Hb;
    unfold act; step_cases; call_cases; split_ifs; cbn [app];
    intros x Hin Hdir;
    try (apply Hx; assumption);
    try (destruct Hin as [<- | []]; cbn [xSize xDir] in *;
         try discriminate Hdir; unfold READ_LEN;
         try (pose proof (Hp (or_introl eq_refl)));
         try (pose proof (Hp (or_intror eq_refl))); lia);
    try (destruct Hin).
Qed.

(** X14.  The SH2 instance never asks for more than the receive buffer
    holds.  After [open] of either instance, as long as the fixed-length
    [read] of the DFU instance is not used, every receive outstanding on
    the bus is for at most sizeof(rxBuf) bytes and the buffered length is
    at most sizeof(rxBuf): neither the transfer into [rxBuf] nor the copy
    out of it goes past its end. *)
Theorem sh2_receives_fit_buffer
  (i : Instance) (env env' : Env) (s0 s1 : State) (r : Z)
  (l : list Action) :
  2 <= SH2_HAL_MAX_TRANSFER_IN ->
  Z.of_nat (length (rxBuf s0)) = SH2_HAL_MAX_TRANSFER_IN ->
  isOpen s0 = false ->
  open (hal i) env s0 = Some (s1, r, env') ->
  forallb length_prefixed l = true ->
  let s := run l s1 in
  receives_fit s
  /\ 0 <= rxBufLen s <= SH2_HAL_MAX_TRANSFER_IN
  /\ Z.of_nat (length (rxBuf s)) = SH2_HAL_MAX_TRANSFER_IN.
Proof.
  intros Hcap Hlen Hclosed Hopen Hl.
  pose (Q := fun t : State =>
    bus_ok t = true /\ frame_fits t /\ receives_fit t).
  assert (HQ : forall a t, length_prefixed a = true -> Q t -> Q (act a t)).
  { intros a t Ha (Hb & Hf & Hr). split; [| split].
    - now apply act_bus_ok.
    - now apply act_frame_fits.
    - now apply act_receives_fit. }
  assert (Hq1 : Q s1).
  { assert (HP1 : forall e t,
      (i2cBusState t = BUS_INIT /\ outstanding t = [])
      /\ Z.of_nat (length (rxBuf t)) = SH2_HAL_MAX_TRANSFER_IN ->
      (i2cBusState (hw_step e t) = BUS_INIT /\ outstanding (hw_step e t) = [])
      /\ Z.of_nat (length (rxBuf (hw_step e t))) = SH2_HAL_MAX_TRANSFER_IN).
    { intros e t [Hi Hn]. split; [now apply hw_step_init |].
      now rewrite hw_step_rxBuf_length. }
    assert (HQe : forall e t, Q t -> Q (hw_step e t)).
    { intros e t. now apply (HQ (Event e)). }
    assert (Hmid : forall t,
      (i2cBusState t = BUS_INIT /\ outstanding t = [])
      /\ Z.of_nat (length (rxBuf t)) = SH2_HAL_MAX_TRANSFER_IN ->
      forall u, i2cBusState u = BUS_IDLE -> rxBufLen u = 0 ->
        outstanding u = outstanding t -> rxBuf u = rxBuf t -> Q u).
    { intros t [[_ Ho] Hn] u Hi Hz Hou Hru.
      unfold Q, bus_ok, frame_fits, receives_fit.
      rewrite Hou, Ho, Hi, Hz, Hru. split; [reflexivity | split].
      - split; [lia | split; [| split; [discriminate | exact Hn]]].
        intros [Hx | Hx]; discriminate Hx.
      - intros x []. }
    open_waits i Hclosed Hopen;
      apply (delay_poll_inv _ HP1) in E1; try (now repeat split).
    - apply (reset_delay_poll_inv Q HQe) in E2; [exact E2 |].
      now apply (Hmid t1 E1).
    - apply (delay_poll_inv Q HQe) in E2; [exact E2 |].
      now apply (Hmid t1 E1). }
  assert (Hrun : forall l' t, forallb length_prefixed l' = true ->
            Q t -> Q (run l' t)).
  { induction l' as [| a l' IH]; intros t Hl' Ht; [exact Ht |].
    cbn in Hl'. apply andb_true_iff in Hl' as [Ha Hl'].
    cbn. apply IH; [exact Hl' |]. now apply HQ. }
  cbv zeta. destruct (Hrun l s1 Hl Hq1) as (_ & Hf & Hr).
  split; [exact Hr |]. unfold frame_fits in Hf. now destruct Hf as (? & _ & _ & ?).
Qed.

(** ** Before the state machine is armed *)

Lemma act_init (a : Action) (s : State) :
  i2cBusState s = BUS_INIT /\ outstanding s = [] ->
  (i2cBusState (act a s) = BUS_INIT /\ outstanding (act a s) = [])
  /\ discards (act a s) = discards s.
Proof.
  open_state s. fields. intros [-> ->].
  destruct a as [[us | | rx |] | [[] b len t | [] [data |] len]];
    unfold act; step_cases; call_cases; split_ifs; now repeat split.
Qed.

(** X15.  In [BUS_INIT] the driver stays off the bus.  From [BUS_INIT]
    with nothing outstanding (program start, the first wait of [open], the
    time after [close] of the SH2 instance), no event and no client call of
    either instance starts a transfer, leaves [BUS_INIT] or counts a
    discard, and a [write] with valid arguments returns 0. *)
Theorem init_keeps_off_the_bus
  (i : Instance) (l : list Action) (s : State) (data : list byte)
  (len : Z) :
  i2cBusState s = BUS_INIT -> outstanding s = [] ->
  0 < len <= SH2_HAL_MAX_TRANSFER_OUT ->
  i2cBusState (run l s) = BUS_INIT /\ outstanding (run l s) = []
  /\ discards (run l s) = discards s
  /\ snd (write (hal i) (Some data) len (run l s)) = 0.
Proof.
  intros Hi Ho Hlen.
  assert (H : (i2cBusState (run l s) = BUS_INIT /\ outstanding (run l s) = [])
              /\ discards (run l s) = discards s).
  { apply (run_inv (fun t => (i2cBusState t = BUS_INIT /\ outstanding t = [])
                             /\ discards t = discards s));
      [| now repeat split].
    intros a t [Ht Hd]. destruct (act_init a t Ht) as [Ht' Hd'].
    split; [exact Ht' | congruence]. }
  destruct H as [[Hi' Ho'] Hd']. repeat split; try assumption.
  apply write_when_busy; [rewrite Hi'; discriminate | exact Hlen].
Qed.

(** X16.  [close] of the DFU instance leaves the bus state as it was.
    [close] of the SH2 instance puts the state machine back to [BUS_INIT],
    so that a later [write] returns 0; [close] of the DFU instance does
    not, and a [write] made after it from [BUS_IDLE] is still accepted and
    returns its length, although the driver is closed. *)
Theorem dfu_close_keeps_bus_state
  (j : Instance) (s : State) (data : list byte) (len : Z) :
  i2cBusState s = BUS_IDLE ->
  SH2_HAL_MAX_TRANSFER_OUT < 2 ^ 31 ->
  0 < len <= SH2_HAL_MAX_TRANSFER_OUT ->
  i2cBusState (close (hal sh2Hal) s) = BUS_INIT
  /\ snd (write (hal j) (Some data) len (close (hal sh2Hal) s)) = 0
  /\ i2cBusState (close (hal dfuHal) s) = BUS_IDLE
  /\ isOpen (close (hal dfuHal) s) = false
  /\ snd (write (hal j) (Some data) len (close (hal dfuHal) s)) = len.
Proof.
  intros Hi Hcap Hlen.
  assert (Hd : i2cBusState (close (hal dfuHal) s) = BUS_IDLE)
    by (rewrite <- Hi; reflexivity).
  split; [reflexivity |]. split.
  { apply write_when_busy; [discriminate | exact Hlen]. }
  split; [exact Hd |]. split; [reflexivity |].
  destruct (write_in_idle j _ data len Hd Hlen) as [Hr _].
  rewrite Hr. apply to_int_small. lia.
Qed.

(** ** The end of the start-up wait *)

Lemma hw_step_edge_served (e : HwEvent) (s : State) :
  irqEXTI15_10 (hw s) = true -> i2cBusState s <> BUS_INIT ->
  (irqEXTI15_10 (hw (hw_step e s)) = true
   /\ i2cBusState (hw_step e s) <> BUS_INIT)
  /\ (inReset s = false \/ e = IntnEdge -> inReset (hw_step e s) = false).
Proof.
  open_state s. fields. intros -> Hst.
  destruct e, st; try congruence; case_xfers xf; step_cases; split_ifs;
    (split; [split; [reflexivity | discriminate] |]);
    intros [H | H]; try discriminate H; try reflexivity; exact H.
Qed.

Lemma hw_run_edge_served (sl : Slice) :
  forall s,
    irqEXTI15_10 (hw s) = true -> i2cBusState s <> BUS_INIT ->
    inReset s = false \/ In IntnEdge sl ->
    inReset (hw_run sl s) = false.
Proof.
  induction sl as [| e sl IH]; intros s Hirq Hst Hin.
  - destruct Hin as [H | []]. exact H.
  - destruct (hw_step_edge_served e s Hirq Hst) as [[Hirq' Hst'] Hr].
    change (hw_run (e :: sl) s) with (hw_run sl (hw_step e s)).
    apply IH; [exact Hirq' | exact Hst' |].
    destruct Hin as [H | [H | H]]; auto.
Qed.

(** X17.  The start-up wait ends at the first poll after an edge.  With
    the edge interrupt enabled and the state machine armed, an edge
    arriving between two polls of the counter makes [reset_delay_us]
    return at the next poll, however little of the time [t] has passed. *)
Theorem reset_wait_ends_on_edge
  (t : Z) (sl : Slice) (env : Env) (s : State) :
  0 < t -> inReset s = true ->
  irqEXTI15_10 (hw s) = true -> i2cBusState s <> BUS_INIT ->
  In IntnEdge sl ->
  reset_delay_us t (sl :: env) s = Some (hw_run sl s, env)
  /\ inReset (hw_run sl s) = false.
Proof.
  intros Ht Hr Hirq Hst Hin.
  assert (Hc : inReset (hw_run sl s) = false)
    by (apply hw_run_edge_served; auto).
  split; [| exact Hc].
  unfold reset_delay_us. cbn [reset_delay_poll].
  rewrite Z.sub_diag, Hr.
  replace (u32 0 <? t) with true
    by (symmetry; apply Z.ltb_lt; unfold u32; cbn; lia).
  cbn [andb].
  destruct env; cbn [reset_delay_poll]; rewrite Hc, andb_false_r;
    reflexivity.
Qed.

(** ** The time base *)

(** X18.  Both instances read the same free-running counter.  While the
    counter runs, the difference of two [getTimeUs] readings, of either
    instance, taken modulo 2^32 is the time that passed in between,
    whatever interrupts were served meanwhile. *)
Theorem getTimeUs_measures_elapsed
  (i j : Instance) (sl : Slice) (s : State) :
  tim2_en (hw s) = true ->
  u32 (getTimeUs (hal i) (hw_run sl s) - getTimeUs (hal j) s)
  = u32 (advance sl).
Proof.
  intros Hen.
  assert (H : u32 (timeNowUs (hw_run sl s) - timeNowUs s)
              = u32 (advance sl)).
  { rewrite elapsed_after_slice by exact Hen.
    rewrite Z.sub_diag. reflexivity. }
  destruct i, j; exact H.
Qed.

(** ** Interrupt masks after a client call *)

(** X19.  Client calls leave interrupts enabled, whatever they were.
    [read] of the SH2 instance returns with all three lines enabled, and a
    [write] of either instance with valid arguments returns with the two
    I2C lines enabled and the edge line as it was, also when the lines
    were masked before the call, as they are after [close].  [read] of the
    DFU instance touches no mask. *)
Theorem client_calls_unmask_interrupts
  (i : Instance) (s : State) (b data : list byte) (len cap t : Z) :
  0 < len <= SH2_HAL_MAX_TRANSFER_OUT ->
  let r := fst (read (hal sh2Hal) b cap t s) in
  let w := fst (write (hal i) (Some data) len s) in
  let d := fst (read (hal dfuHal) b cap t s) in
  (irqEXTI15_10 (hw r) = true /\ irqI2C1_EV (hw r) = true
   /\ irqI2C1_ER (hw r) = true)
  /\ (irqEXTI15_10 (hw w) = irqEXTI15_10 (hw s)
      /\ irqI2C1_EV (hw w) = true /\ irqI2C1_ER (hw w) = true)
  /\ (irqEXTI15_10 (hw d) = irqEXTI15_10 (hw s)
      /\ irqI2C1_EV (hw d) = irqI2C1_EV (hw s)
      /\ irqI2C1_ER (hw d) = irqI2C1_ER (hw s)).
Proof.
  intros Hlen. pose proof (write_args_ok len Hlen) as Hok. cbv zeta.
  open_state s. split; [| split].
  - cbn [hal read sh2_hal_init]. unfold sh2_i2c_hal_read. fields.
    destruct dr, st; split_ifs; now repeat split.
  - destruct i; cbn [hal write sh2_hal_init dfu_hal_init];
      unfold sh2_i2c_hal_write, dfu_i2c_hal_write; rewrite Hok; fields;
      destruct st; now repeat split.
  - cbn [hal read dfu_hal_init]. unfold dfu_i2c_hal_read. fields.
    destruct st; cbn [BusState_eqb negb andb]; split_ifs; now repeat split.
Qed.

(** ** Mainline code preempted by the handlers *)

Lemma hw_run_nil (s : State) : hw_run [] s = s.
Proof. reflexivity. Qed.

Lemma exec_cons_inv (f : State -> State) (prog : list (State -> State))
  (env env' : Env) (s s' : State) :
  exec (f :: prog) env s = Some (s', env') ->
  exists sl env1,
    env = sl :: env1 /\ exec prog env1 (f (hw_run sl s)) = Some (s', env').
Proof.
  destruct env as [| sl env1]; [discriminate |].
  intros H. now exists sl, env1.
Qed.

(** Properties of the state that depend on what the hardware has done so
    far. *)
Lemma hw_run_traced (Q : list HwEvent -> State -> Prop) :
  (forall e tr t, Q tr t -> Q (tr ++ [e]) (hw_step e t)) ->
  forall sl tr t, Q tr t -> Q (tr ++ sl) (hw_run sl t).
Proof.
  intros Hstep sl. induction sl as [| e sl IH]; intros tr t Ht.
  - now rewrite app_nil_r.
  - change (hw_run (e :: sl) t) with (hw_run sl (hw_step e t)).
    change (e :: sl) with ([e] ++ sl). rewrite app_assoc.
    apply IH. now apply Hstep.
Qed.

Lemma exec_traced (Q : list HwEvent -> State -> Prop) :
  (forall e tr t, Q tr t -> Q (tr ++ [e]) (hw_step e t)) ->
  forall prog,
    Forall (fun f : State -> State => forall tr t, Q tr t -> Q tr (f t))
      prog ->
    forall env s s' env' tr,
      exec prog env s = Some (s', env') -> Q tr s ->
      exists pre, env = pre ++ env' /\ Q (tr ++ concat pre) s'.
Proof.
  intros Hstep prog Hprog.
  induction Hprog as [| f prog Hf _ IH]; intros env s s' env' tr Hrun Hs.
  - inversion Hrun; subst. exists []. cbn. now rewrite app_nil_r.
  - destruct (exec_cons_inv _ _ _ _ _ _ Hrun) as (sl & env1 & -> & Hrest).
    destruct (IH env1 _ s' env' (tr ++ sl) Hrest) as (pre & -> & Hq).
    { apply Hf. now apply hw_run_traced. }
    exists (sl :: pre). split; [reflexivity |].
    cbn [concat]. now rewrite app_assoc.
Qed.



(** Served nothing, the statements of [write] are [sh2_i2c_hal_write]. *)
Lemma write_not_preempted
  (pBuffer : option (list byte)) (len : Z) (env : Env) (s : State) :
  exists k,
    sh2_i2c_hal_write_preemptible pBuffer len (repeat [] 6 ++ env) s
    = Some (fst (sh2_i2c_hal_write pBuffer len s),
            snd (sh2_i2c_hal_write pBuffer len s),
            repeat [] k ++ env).
Proof.
  unfold sh2_i2c_hal_write_preemptible, sh2_i2c_hal_write.
  destruct pBuffer as [data |]; [| now exists 6%nat].
  destruct ((len =? 0) || (SH2_HAL_MAX_TRANSFER_OUT <? len));
    [now exists 6%nat |].
  cbn [repeat app exec andThen hw_run fold_left observe]. fields.
  destruct (i2cBusState s);
    cbn [exec andThen hw_run fold_left]; fields;
    first [now exists 3%nat | now exists 0%nat].
Qed.

(** C1.  The invariant does not survive a handler that runs inside
    [write].  [sh2_i2c_hal_write] masks the two I2C lines only, so the
    data-ready edge can be served between its test of the bus state and the
    assignment that follows: from [BUS_IDLE] with nothing outstanding, the
    edge handler starts the length read, [write] then starts its own
    transfer, and two transfers are outstanding while the bus state says
    [BUS_WRITING]. *)
Theorem write_preempted_by_edge
  (s : State) (data : list byte) (len : Z) (env : Env) :
  i2cBusState s = BUS_IDLE -> outstanding s = [] ->
  irqEXTI15_10 (hw s) = true ->
  0 < len <= SH2_HAL_MAX_TRANSFER_OUT ->
  exists s',
    sh2_i2c_hal_write_preemptible (Some data) len
      ([] :: [] :: [IntnEdge] :: [] :: [] :: [] :: env) s
    = Some (s', to_int len, env)
    /\ i2cBusState s' = BUS_WRITING
    /\ outstanding s'
       = [mkXfer XferRx (i2cAddr s) READ_LEN;
          mkXfer XferTx (i2cAddr s) (u16 len)]
    /\ bus_ok s' = false
    /\ ~ (length (outstanding s') <= 1)%nat.
Proof.
  intros Hidle Hout Hirq Hlen. pose proof (write_args_ok len Hlen) as Hok.
  unfold sh2_i2c_hal_write_preemptible. rewrite Hok.
  open_state s. fields. subst.
  cbn [exec andThen hw_run fold_left observe]. fields.
  cbn [exec andThen hw_run fold_left observe]. step_cases.
  split_ifs; cbn [app]; eexists; (split; [reflexivity |]);
    unfold bus_ok; fields; repeat split; cbn [app length]; lia.
Qed.

(** Served nothing, the statements of [read] are [sh2_i2c_hal_read]. *)
Lemma read_not_preempted
  (pBuffer : list byte) (len t : Z) (env : Env) (s : State) :
  exists k,
    sh2_i2c_hal_read_preemptible pBuffer len t (repeat [] 8 ++ env) s
    = Some (fst (sh2_i2c_hal_read pBuffer len t s),
            snd (sh2_i2c_hal_read pBuffer len t s),
            repeat [] k ++ env).
Proof.
  unfold sh2_i2c_hal_read_preemptible, sh2_i2c_hal_read.
  cbn [repeat app exec andThen hw_run fold_left observe]. fields.
  destruct (0 <? rxBufLen s); [destruct (len <? rxBufLen s) |];
    cbn [exec andThen hw_run fold_left observe]; fields;
    (destruct (rxDataReady s); [| now exists 5%nat]);
    cbn [exec andThen hw_run fold_left observe]; fields;
    destruct (i2cBusState s);
    cbn [exec andThen hw_run fold_left observe]; fields;
    first [now exists 1%nat | now exists 0%nat | now exists 3%nat].
Qed.

(** The tail of [read] is exposed in the same way as [write]: it runs
    after [enableInts].  With a read deferred and the bus idle, an edge
    served between its test of the bus state and its assignments makes the
    handler and [read] both start the length read. *)
Lemma read_preempted_by_edge
  (s : State) (pBuffer : list byte) (len t : Z) (env : Env) :
  i2cBusState s = BUS_IDLE -> outstanding s = [] ->
  rxDataReady s = true -> rxBufLen s = 0 ->
  exists s' out,
    sh2_i2c_hal_read_preemptible pBuffer len t
      ([] :: [] :: [] :: [] :: [IntnEdge] :: [] :: [] :: env) s
    = Some (s', out, env)
    /\ i2cBusState s' = BUS_READING_LEN
    /\ outstanding s'
       = [mkXfer XferRx (i2cAddr s) READ_LEN;
          mkXfer XferRx (i2cAddr s) READ_LEN]
    /\ bus_ok s' = false.
Proof.
  open_state s. fields. intros -> -> -> ->.
  exists (mkState o BUS_READING_LEN cnt rb 0 pl tb false dc ad false
            (mkHw cnt en true true true pn
               [mkXfer XferRx ad READ_LEN; mkXfer XferRx ad READ_LEN])),
         (mkReadOut 0 pBuffer t).
  split; [vm_compute; reflexivity | now repeat split].
Qed.

(** ** [close] followed by [open], handlers running throughout *)













(** ** The time [open] takes *)

(** While a wait runs the counter does not wrap: what has elapsed is what
    the consumed slices count. *)
Lemma delay_poll_advance (d dmax t start : Z) :
  0 <= d -> dmax <= 2 ^ 32 - t ->
  forall env now s s' env',
    now = timeNowUs s ->
    tim2_en (hw s) = true ->
    Forall (paced d dmax) env ->
    u32 (now - start) < t ->
    delay_poll t start now env s = Some (s', env') ->
    exists pre,
      env = pre ++ env' /\ s' = hw_run (concat pre) s
      /\ u32 (timeNowUs s' - start)
         = u32 (now - start) + advance (concat pre).
Proof.
  intros Hd Hmax env.
  induction env as [| sl env IH];
    intros now s s' env' Hnow Hen Hpaced Hlt Hrun; cbn in Hrun;
    destruct (Z.ltb_spec (u32 (now - start)) t) as [_ | Hge];
    try discriminate; try lia.
  subst now.
  inversion Hpaced as [| ? ? Hsl Hrest]; subst. unfold paced in Hsl.
  set (s1 := hw_run sl s) in *.
  assert (Hen1 : tim2_en (hw s1) = true)
    by (unfold s1; now apply hw_run_clock).
  assert (He : 0 <= u32 (timeNowUs s - start) < 2 ^ 32)
    by (unfold u32; apply Z.mod_pos_bound; lia).
  assert (Hel : u32 (timeNowUs s1 - start)
                = u32 (timeNowUs s - start) + advance sl).
  { unfold s1. rewrite elapsed_after_slice by exact Hen.
    apply u32_small. lia. }
  destruct (Z.lt_ge_cases (u32 (timeNowUs s1 - start)) t) as [Hl | Hg].
  - destruct (IH (timeNowUs s1) s1 s' env' eq_refl Hen1 Hrest Hl Hrun)
      as (pre & -> & -> & Hadv).
    exists (sl :: pre). split; [reflexivity |].
    cbn [concat]. rewrite hw_run_app, advance_app.
    split; [reflexivity |]. fold s1. lia.
  - assert (Hstop : delay_poll t start (timeNowUs s1) env s1
                    = Some (s1, env)).
    { destruct env; cbn;
        destruct (Z.ltb_spec (u32 (timeNowUs s1 - start)) t);
        try lia; reflexivity. }
    rewrite Hstop in Hrun. inversion Hrun; subst.
    exists [sl]. cbn [concat app]. rewrite app_nil_r.
    split; [reflexivity |]. split; [reflexivity |]. exact Hel.
Qed.

Lemma exec_total (prog : list (State -> State)) :
  forall env s,
    (length prog <= length env)%nat ->
    exists s' pre env',
      exec prog env s = Some (s', env')
      /\ env = pre ++ env' /\ length pre = length prog.
Proof.
  induction prog as [| f prog IH]; intros env s Hlen.
  - now exists s, [], env.
  - destruct env as [| sl env]; [cbn in Hlen; lia |].
    cbn [length] in Hlen.
    destruct (IH env (f (hw_run sl s)) ltac:(lia))
      as (s' & pre & env' & Hrun & -> & Hn).
    exists s', (sl :: pre), env'. cbn [exec length app].
    split; [exact Hrun |]. split; [reflexivity | now rewrite Hn].
Qed.

(** What a statement establishes holds at the end of the code when the
    statements after it, and the events other than the data-ready edge,
    keep it. *)
Lemma exec_after (P : State -> Prop) (p : list (State -> State))
  (f : State -> State) (q : list (State -> State)) :
  (forall e t, no_edge e = true -> P t -> P (hw_step e t)) ->
  (forall t, P (f t)) ->
  Forall (fun g : State -> State => forall t, P t -> P (g t)) q ->
  forall env s s' env',
    Forall (fun sl => quiet sl = true) env ->
    exec (p ++ f :: q) env s = Some (s', env') -> P s'.
Proof.
  intros Hstep Hf Hq.
  pose (Q := fun (tr : list HwEvent) (t : State) =>
    forallb no_edge tr = true -> P t).
  assert (HQ : forall e tr t, Q tr t -> Q (tr ++ [e]) (hw_step e t)).
  { intros e tr t Ht Hok. rewrite forallb_app in Hok.
    apply andb_true_iff in Hok as [Ha Hb]. cbn in Hb.
    apply andb_true_iff in Hb as [Hb _]. apply Hstep; auto. }
  induction p as [| g p IH]; intros env s s' env' Henv Hrun; cbn [app] in Hrun;
    destruct (exec_cons_inv _ _ _ _ _ _ Hrun) as (sl & env1 & -> & Hrest);
    inversion Henv as [| ? ? Hsl Henv1]; subst.
  - apply (exec_traced Q HQ) with (tr := []) in Hrest.
    + destruct Hrest as (pre & -> & Hend). apply Hend.
      apply quiet_concat. apply Forall_app in Henv1. apply Henv1.
    + apply Forall_forall. intros g Hg tr t Ht Hok.
      rewrite Forall_forall in Hq. apply (Hq g Hg). now apply Ht.
    + intros _. apply Hf.
  - exact (IH env1 _ s' env' Henv1 Hrest).
Qed.

(** What holds before the code and is kept by its statements and by the
    events other than the data-ready edge holds after it. *)
Lemma exec_keeps (P : State -> Prop) (prog : list (State -> State)) :
  (forall e t, no_edge e = true -> P t -> P (hw_step e t)) ->
  Forall (fun g : State -> State => forall t, P t -> P (g t)) prog ->
  forall env s s' env',
    Forall (fun sl => quiet sl = true) env ->
    exec prog env s = Some (s', env') -> P s -> P s'.
Proof.
  intros Hstep Hprog env s s' env' Henv Hrun Hs.
  pose (Q := fun (tr : list HwEvent) (t : State) =>
    forallb no_edge tr = true -> P t).
  assert (HQ : forall e tr t, Q tr t -> Q (tr ++ [e]) (hw_step e t)).
  { intros e tr t Ht Hok. rewrite forallb_app in Hok.
    apply andb_true_iff in Hok as [Ha Hb]. cbn in Hb.
    apply andb_true_iff in Hb as [Hb _]. apply Hstep; auto. }
  apply (exec_traced Q HQ) with (tr := []) in Hrun.
  - destruct Hrun as (pre & -> & Hend). apply Hend.
    apply quiet_concat. apply Forall_app in Henv. apply Henv.
  - apply Forall_forall. intros g Hg tr t Ht Hok.
    rewrite Forall_forall in Hprog. apply (Hprog g Hg). now apply Ht.
  - now intros _.
Qed.

(** The time counted by slices that are paced. *)
Lemma advance_paced (d dmax : Z) (pre : list Slice) :
  Forall (paced d dmax) pre ->
  d * Z.of_nat (length pre) <= advance (concat pre)
  <= dmax * Z.of_nat (length pre).
Proof.
  induction 1 as [| sl pre Hsl _ IH]; [cbn; lia |].
  cbn [concat length]. rewrite advance_app. unfold paced in Hsl. lia.
Qed.

Ltac kept_by_stmts :=
  cbn [app firstn skipn];
  repeat (apply Forall_cons; [intros t H; exact H |]); apply Forall_nil.

(** [open] of the SH2 instance, handlers running between its statements,
    when no edge comes: it returns once both waits have run their time. *)
Lemma sh2_open_preemptible_waits (s : State) (env : Env) (d dmax : Z) :
  isOpen s = false -> 0 < d -> dmax <= 2 ^ 32 - START_DELAY_US ->
  Forall (fun sl => quiet sl = true /\ paced d dmax sl) env ->
  RESET_DELAY_US + START_DELAY_US + 24 * d <= d * Z.of_nat (length env) ->
  exists s' env' pre,
    sh2_i2c_hal_open_preemptible env s = Some (s', SH2_OK, env')
    /\ env = pre ++ env'
    /\ RESET_DELAY_US + START_DELAY_US <= advance (concat pre)
       < RESET_DELAY_US + START_DELAY_US + 24 * dmax
    /\ inReset s' = true /\ i2cBusState s' = BUS_IDLE /\ isOpen s' = true.
Proof.
  intros Hclosed Hd Hmax Henv Hlen.
  assert (Hq : Forall (fun sl => quiet sl = true) env)
    by (eapply Forall_impl; [| exact Henv]; now intros sl [H _]).
  assert (Hp : Forall (paced d dmax) env)
    by (eapply Forall_impl; [| exact Henv]; now intros sl [_ H]).
  assert (Hz : forall c, u32 (c - c) = 0)
    by (intros c; rewrite Z.sub_diag; reflexivity).
  assert (HR : RESET_DELAY_US = 10000) by reflexivity.
  assert (HS : START_DELAY_US = 2000000) by reflexivity.
  assert (Hmax1 : dmax <= 2 ^ 32 - RESET_DELAY_US) by lia.
  assert (Hen : forall e t, no_edge e = true ->
            tim2_en (hw t) = true -> tim2_en (hw (hw_step e t)) = true)
    by (intros e t _ H; now rewrite hw_step_tim2_en).
  assert (Hir : forall e t, no_edge e = true ->
            inReset t = true -> inReset (hw_step e t) = true).
  { intros e t He H. destruct (hw_step_no_edge e t He) as [Hr _].
    congruence. }
  assert (Hio : forall e t, no_edge e = true ->
            isOpen t = true -> isOpen (hw_step e t) = true)
    by (intros e t _ H; now rewrite hw_step_isOpen).
  assert (Hid : forall e t, no_edge e = true ->
            i2cBusState t = BUS_IDLE -> i2cBusState (hw_step e t) = BUS_IDLE).
  { intros e t He H. now destruct (hw_step_no_edge e t He) as [_ Hi];
      apply Hi. }
  unfold sh2_i2c_hal_open_preemptible. rewrite Hclosed.
  unfold hal_init_hw_body. cbn [app].
  match goal with
  | |- context [andThen (exec ?prog env s) _] => set (prog1 := prog)
  end.
  (* the statements up to the first wait *)
  destruct (exec_total prog1 env s ltac:(cbn [length prog1]; nia))
    as (a & pre1 & env1 & E1 & Hs1 & Hl1).
  rewrite E1. cbn [andThen]. cbn [length prog1] in Hl1.
  assert (Ha_en : tim2_en (hw a) = true).
  { apply (exec_after (fun t => tim2_en (hw t) = true)
             (firstn 3 prog1) hal_init_timer (skipn 4 prog1) Hen)
      with (env := env) (s := s) (env' := env1);
      [reflexivity | unfold prog1; kept_by_stmts | exact Hq | exact E1]. }
  assert (Ha_ir : inReset a = true).
  { apply (exec_after (fun t => inReset t = true)
             (firstn 11 prog1) (set_inReset true) (skipn 12 prog1) Hir)
      with (env := env) (s := s) (env' := env1);
      [reflexivity | unfold prog1; kept_by_stmts | exact Hq | exact E1]. }
  assert (Ha_io : isOpen a = true).
  { apply (exec_after (fun t => isOpen t = true)
             (firstn 2 prog1) (set_isOpen true) (skipn 3 prog1) Hio)
      with (env := env) (s := s) (env' := env1);
      [reflexivity | unfold prog1; kept_by_stmts | exact Hq | exact E1]. }
  subst env. clear E1.
  apply Forall_app in Hq as [Hq1 Hq1'].
  apply Forall_app in Hp as [Hp1 Hp1'].
  rewrite length_app, Nat2Z.inj_add, Hl1 in Hlen.
  pose proof (advance_paced d dmax pre1 Hp1) as Hadv1. rewrite Hl1 in Hadv1.
  (* the first wait *)
  unfold delay_us.
  destruct (delay_poll_total d dmax RESET_DELAY_US (timeNowUs a) Hd Hmax1
              env1 (timeNowUs a) a eq_refl Ha_en Hp1'
              ltac:(rewrite Hz; nia))
    as (b & pre2 & env2 & E2 & Hs2 & _ & Hused2).
  rewrite Hz in Hused2. specialize (Hused2 ltac:(lia)).
  rewrite E2. cbn [andThen].
  destruct (delay_poll_advance d dmax RESET_DELAY_US (timeNowUs a)
              ltac:(lia) Hmax1 env1 (timeNowUs a) a b env2 eq_refl
              Ha_en Hp1' ltac:(rewrite Hz; lia) E2)
    as (pre2' & Hs2' & Hb & Hadv2).
  rewrite Hz in Hadv2.
  pose proof (delay_poll_elapsed _ _ _ _ _ _ _ eq_refl E2) as Hlo2.
  pose proof (delay_poll_overshoot d dmax RESET_DELAY_US (timeNowUs a)
                ltac:(lia) Hmax1 env1 (timeNowUs a) a b env2 eq_refl
                Ha_en Hp1' ltac:(rewrite Hz; lia) E2) as Hhi2.
  assert (pre2' = pre2)
    by (apply (app_inv_tail env2); congruence).
  subst pre2'. clear Hs2'. subst env1. clear E2.
  apply Forall_app in Hq1' as [Hq2 Hq2'].
  apply Forall_app in Hp1' as [Hp2 Hp2'].
  rewrite length_app, Nat2Z.inj_add in Hlen.
  destruct (hw_run_silent (concat pre2) a (quiet_concat pre2 Hq2) Ha_ir)
    as (Hb_ir & Hb_io & _).
  assert (Hb_en : tim2_en (hw b) = true)
    by (rewrite Hb; now apply hw_run_clock).
  rewrite <- Hb in Hb_ir, Hb_io. rewrite Ha_io in Hb_io.
  (* the statements between the waits *)
  match goal with
  | |- context [andThen (exec ?prog env2 b) _] => set (prog2 := prog)
  end.
  destruct (exec_total prog2 env2 b ltac:(cbn [length prog2]; nia))
    as (c & pre3 & env3 & E3 & Hs3 & Hl3).
  rewrite E3. cbn [andThen]. cbn [length prog2] in Hl3.
  assert (Hc_id : i2cBusState c = BUS_IDLE).
  { apply (exec_after (fun t => i2cBusState t = BUS_IDLE)
             [] (set_i2cBusState BUS_IDLE) (skipn 1 prog2) Hid)
      with (env := env2) (s := b) (env' := env3);
      [reflexivity | unfold prog2; kept_by_stmts | exact Hq2' | exact E3]. }
  assert (Hc_en : tim2_en (hw c) = true).
  { apply (exec_keeps (fun t => tim2_en (hw t) = true) prog2 Hen)
      with (env := env2) (s := b) (env' := env3);
      [unfold prog2; kept_by_stmts | exact Hq2' | exact E3 | exact Hb_en]. }
  assert (Hc_ir : inReset c = true).
  { apply (exec_keeps (fun t => inReset t = true) prog2 Hir)
      with (env := env2) (s := b) (env' := env3);
      [unfold prog2; kept_by_stmts | exact Hq2' | exact E3 | exact Hb_ir]. }
  assert (Hc_io : isOpen c = true).
  { apply (exec_keeps (fun t => isOpen t = true) prog2 Hio)
      with (env := env2) (s := b) (env' := env3);
      [unfold prog2; kept_by_stmts | exact Hq2' | exact E3 | exact Hb_io]. }
  subst env2. clear E3.
  apply Forall_app in Hq2' as [Hq3 Hq3'].
  apply Forall_app in Hp2' as [Hp3 Hp3'].
  rewrite length_app, Nat2Z.inj_add, Hl3 in Hlen.
  pose proof (advance_paced d dmax pre3 Hp3) as Hadv3. rewrite Hl3 in Hadv3.
  (* the wait for the first edge, which does not come *)
  unfold reset_delay_us.
  rewrite (reset_delay_poll_silent env3 _ _ _ c Hq3' Hc_ir).
  destruct (delay_poll_total d dmax START_DELAY_US (timeNowUs c) Hd Hmax
              env3 (timeNowUs c) c eq_refl Hc_en Hp3'
              ltac:(rewrite Hz; nia))
    as (s4 & pre4 & env4 & E4 & Hs4 & _).
  rewrite E4. cbn [andThen].
  destruct (delay_poll_advance d dmax START_DELAY_US (timeNowUs c)
              ltac:(lia) Hmax env3 (timeNowUs c) c s4 env4 eq_refl
              Hc_en Hp3' ltac:(rewrite Hz; lia) E4)
    as (pre4' & Hs4' & Hs4r & Hadv4).
  rewrite Hz in Hadv4.
  pose proof (delay_poll_elapsed _ _ _ _ _ _ _ eq_refl E4) as Hlo4.
  pose proof (delay_poll_overshoot d dmax START_DELAY_US (timeNowUs c)
                ltac:(lia) Hmax env3 (timeNowUs c) c s4 env4 eq_refl
                Hc_en Hp3' ltac:(rewrite Hz; lia) E4) as Hhi4.
  assert (pre4' = pre4)
    by (apply (app_inv_tail env4); congruence).
  subst pre4'. clear Hs4'. subst env3. clear E4.
  apply Forall_app in Hq3' as [Hq4 _].
  destruct (hw_run_silent (concat pre4) c (quiet_concat pre4 Hq4) Hc_ir)
    as (H4_ir & H4_io & H4_id).
  rewrite <- Hs4r in H4_ir, H4_io, H4_id.
  exists s4, env4, (pre1 ++ pre2 ++ pre3 ++ pre4).
  split; [reflexivity |].
  split; [now rewrite <- !app_assoc |].
  split; [rewrite !concat_app, !advance_app; lia |].
  split; [exact H4_ir |]. split; [now apply H4_id |]. congruence.
Qed.

(** C9.  [open] of the SH2 instance, once past the already-open check,
    returns [SH2_OK] whenever it returns, whatever the hardware does
    meanwhile, between its statements too.  When the peripheral never
    raises the data-ready edge and the counter keeps counting, each step of
    the mainline taking [d] to [dmax] microseconds, [open] does return, and
    only after both waits have run their full time: the hardware activity
    it has consumed counts at least [RESET_DELAY_US + START_DELAY_US]
    microseconds and less than two polls more (24 steps more when the
    handlers run between its statements too); it returns [SH2_OK] with the
    reset flag still set, in [BUS_IDLE].  And when [reset_delay_us] comes
    back with the reset flag still set, the whole window has elapsed. *)
Theorem sh2_open_succeeds_without_edge
  (s : State) (env : Env) (d dmax : Z) :
  isOpen s = false ->
  (forall s' r env',
      sh2_i2c_hal_open env s = Some (s', r, env')
      \/ sh2_i2c_hal_open_preemptible env s = Some (s', r, env') ->
      r = SH2_OK)
  /\ (0 < d -> dmax <= 2 ^ 32 - START_DELAY_US ->
      Forall (fun sl => quiet sl = true /\ paced d dmax sl) env ->
      (RESET_DELAY_US + START_DELAY_US + 2 * d
       <= d * Z.of_nat (length env) ->
       exists s' env' pre,
         sh2_i2c_hal_open env s = Some (s', SH2_OK, env')
         /\ env = pre ++ env'
         /\ RESET_DELAY_US + START_DELAY_US <= advance (concat pre)
            < RESET_DELAY_US + START_DELAY_US + 2 * dmax
         /\ inReset s' = true /\ i2cBusState s' = BUS_IDLE
         /\ isOpen s' = true)
      /\ (RESET_DELAY_US + START_DELAY_US + 24 * d
          <= d * Z.of_nat (length env) ->
          exists s' env' pre,
            sh2_i2c_hal_open_preemptible env s = Some (s', SH2_OK, env')
            /\ env = pre ++ env'
            /\ RESET_DELAY_US + START_DELAY_US <= advance (concat pre)
               < RESET_DELAY_US + START_DELAY_US + 24 * dmax
            /\ inReset s' = true /\ i2cBusState s' = BUS_IDLE
            /\ isOpen s' = true))
  /\ (forall t w s1 s2 w',
        reset_delay_us t w s1 = Some (s2, w') ->
        inReset s2 = true ->
        t <= u32 (timeNowUs s2 - timeNowUs s1)).
Proof.
  intros Hclosed. split; [| split].
  - intros s' r env' [Hopen | Hopen].
    + now destruct (open_arms sh2Hal env s s' r env' Hclosed Hopen).
    + unfold sh2_i2c_hal_open_preemptible in Hopen.
      rewrite Hclosed in Hopen. unfold andThen in Hopen.
      repeat match type of Hopen with
             | match ?w with _ => _ end = _ =>
                 destruct w as [[? ?] |]; [| discriminate]
             end.
      now inversion Hopen.
  - intros Hd Hmax Henv.
    split; [| now apply sh2_open_preemptible_waits].
    intros Hlen.
    assert (Hq : Forall (fun sl => quiet sl = true) env)
      by (eapply Forall_impl; [| exact Henv]; now intros sl [H _]).
    assert (Hp : Forall (paced d dmax) env)
      by (eapply Forall_impl; [| exact Henv]; now intros sl [_ H]).
    unfold sh2_i2c_hal_open. rewrite Hclosed.
    match goal with
    | |- context [delay_us _ _ ?x] => set (s1 := x)
    end.
    assert (Hz : forall c, u32 (c - c) = 0)
      by (intros c; rewrite Z.sub_diag; reflexivity).
    assert (Hmax1 : dmax <= 2 ^ 32 - RESET_DELAY_US)
      by (unfold START_DELAY_US, RESET_DELAY_US in *; lia).
    unfold delay_us.
    destruct (delay_poll_total d dmax RESET_DELAY_US
                (timeNowUs s1) Hd Hmax1
                env (timeNowUs s1) s1 eq_refl eq_refl Hp
                ltac:(rewrite Hz; unfold START_DELAY_US in Hlen; lia))
      as (s2 & pre & env1 & Hrun1 & Hsplit & _ & Hused).
    rewrite Hz in Hused. specialize (Hused ltac:(unfold RESET_DELAY_US; lia)).
    rewrite Hrun1. cbn [andThen].
    destruct (delay_poll_advance d dmax RESET_DELAY_US (timeNowUs s1)
                ltac:(lia) Hmax1 env (timeNowUs s1) s1 s2 env1 eq_refl
                eq_refl Hp ltac:(rewrite Hz; unfold RESET_DELAY_US; lia)
                Hrun1)
      as (pre' & Hsplit' & Hs2 & Hadv1).
    rewrite Hz in Hadv1.
    pose proof (delay_poll_elapsed _ _ _ _ _ _ _ eq_refl Hrun1) as Hlo1.
    pose proof (delay_poll_overshoot d dmax RESET_DELAY_US (timeNowUs s1)
                  ltac:(lia) Hmax1 env (timeNowUs s1) s1 s2 env1 eq_refl
                  eq_refl Hp ltac:(rewrite Hz; unfold RESET_DELAY_US; lia)
                  Hrun1) as Hhi1.
    assert (Hq' : Forall (fun sl => quiet sl = true) pre').
    { rewrite Hsplit' in Hq. apply Forall_app in Hq. exact (proj1 Hq). }
    destruct (hw_run_silent (concat pre') s1 (quiet_concat pre' Hq') eq_refl)
      as (Hr2 & Ho2 & _).
    assert (Hen2 : tim2_en (hw s2) = true)
      by (rewrite Hs2; now apply hw_run_clock).
    rewrite <- Hs2 in Hr2, Ho2.
    match goal with
    | |- context [reset_delay_us _ _ ?x] => set (s3 := x)
    end.
    assert (Hq1 : Forall (fun sl => quiet sl = true) env1).
    { rewrite Hsplit in Hq. apply Forall_app in Hq. exact (proj2 Hq). }
    assert (Hp1 : Forall (paced d dmax) env1).
    { rewrite Hsplit in Hp. apply Forall_app in Hp. exact (proj2 Hp). }
    assert (Hr3 : inReset s3 = true) by exact Hr2.
    unfold reset_delay_us.
    rewrite (reset_delay_poll_silent env1 _ _ _ s3 Hq1 Hr3).
    assert (Hlen1 : START_DELAY_US
                    <= u32 (timeNowUs s3 - timeNowUs s3)
                       + d * Z.of_nat (length env1)).
    { rewrite Hz. rewrite Hsplit, length_app, Nat2Z.inj_add in Hlen.
      unfold RESET_DELAY_US in *. lia. }
    destruct (delay_poll_total d dmax START_DELAY_US
                (timeNowUs s3) Hd Hmax
                env1 (timeNowUs s3) s3 eq_refl Hen2 Hp1 Hlen1)
      as (s4 & pre2 & env2 & Hrun2 & _).
    rewrite Hrun2. cbn [andThen].
    destruct (delay_poll_advance d dmax START_DELAY_US (timeNowUs s3)
                ltac:(lia) Hmax env1 (timeNowUs s3) s3 s4 env2 eq_refl
                Hen2 Hp1 ltac:(rewrite Hz; unfold START_DELAY_US; lia)
                Hrun2)
      as (pre2' & Hsplit2 & Hs4 & Hadv2).
    rewrite Hz in Hadv2.
    pose proof (delay_poll_elapsed _ _ _ _ _ _ _ eq_refl Hrun2) as Hlo2.
    pose proof (delay_poll_overshoot d dmax START_DELAY_US (timeNowUs s3)
                  ltac:(lia) Hmax env1 (timeNowUs s3) s3 s4 env2 eq_refl
                  Hen2 Hp1 ltac:(rewrite Hz; unfold START_DELAY_US; lia)
                  Hrun2) as Hhi2.
    assert (Hq2 : Forall (fun sl => quiet sl = true) pre2').
    { rewrite Hsplit2 in Hq1. apply Forall_app in Hq1. exact (proj1 Hq1). }
    destruct (hw_run_silent (concat pre2') s3 (quiet_concat pre2' Hq2) Hr3)
      as (Hr4 & Ho4 & Hi4).
    rewrite <- Hs4 in Hr4, Ho4, Hi4.
    exists s4, env2, (pre' ++ pre2').
    split; [reflexivity |].
    split; [rewrite <- app_assoc; congruence |].
    split; [rewrite concat_app, advance_app; lia |].
    split; [exact Hr4 |]. split; [now apply Hi4 |].
    rewrite Ho4. exact Ho2.
  - intros t w s1 s2 w' Hrun Hr.
    unfold reset_delay_us in Hrun.
    destruct (reset_delay_poll_exit _ _ _ _ _ _ _ eq_refl Hrun); congruence.
Qed.

End I2cHal.

(** ** The statements at work

    The constants are those of the SH2 library: 384 bytes in, 128 bytes
    out, [SH2_OK] = 0, [SH2_ERR] = -1, [SH2_ERR_BAD_PARAM] = -2. *)

Lemma edge_ignored_when_uninitialized_witness :
  HAL_GPIO_EXTI_Callback GPIO_PIN_10 (boot_state 384 128)
  = boot_state 384 128.
Proof.
  exact (proj1 (edge_ignored_when_uninitialized 384 GPIO_PIN_10
                  (boot_state 384 128) eq_refl)).
Defined.

Lemma length_read_completion_witness :
  payloadLen
    (HAL_I2C_MasterRxCpltCallback 384
       (set_rxBuf (x05 :: x80 :: repeat x00 382)
          (set_i2cBusState BUS_READING_LEN (boot_state 384 128))))
  = 5.
Proof.
  refine (proj1 (length_read_completion 384
                   (set_rxBuf (x05 :: x80 :: repeat x00 382)
                      (set_i2cBusState BUS_READING_LEN (boot_state 384 128)))
                   x05 x80 (repeat x00 382) _ eq_refl eq_refl)).
  lia.
Defined.

Lemma sh2_read_contract_witness :
  retval
    (snd (sh2_i2c_hal_read (-2) (repeat x00 4) 4 0
            (set_rxBufLen 2
               (set_i2cBusState BUS_IDLE (boot_state 384 128)))))
  = 2.
Proof.
  refine (proj1 (proj1 (proj2
            (sh2_read_contract (-2)
               (set_rxBufLen 2 (set_i2cBusState BUS_IDLE (boot_state 384 128)))
               (repeat x00 4) 4 0 _ _)) _ _));
    cbn; lia.
Defined.

Lemma sh2_read_starts_deferred_read_witness :
  i2cBusState
    (fst (sh2_i2c_hal_read (-2) (repeat x00 4) 4 0
            (set_rxDataReady true
               (set_i2cBusState BUS_IDLE (boot_state 384 128)))))
  = BUS_READING_LEN.
Proof.
  exact (proj1 (proj1
           (sh2_read_starts_deferred_read (-2)
              (set_rxDataReady true
                 (set_i2cBusState BUS_IDLE (boot_state 384 128)))
              (repeat x00 4) 4 0 eq_refl) eq_refl)).
Defined.

Lemma write_contract_witness :
  snd (write (hal 384 128 0 (-1) (-2) dfuHal) (Some [x01; x02]) 2
         (set_i2cBusState BUS_IDLE (boot_state 384 128)))
  = 2.
Proof.
  refine (proj1 (proj1 (proj2
            (write_contract 384 128 0 (-1) (-2) dfuHal (Some [x01; x02]) 2
               (set_i2cBusState BUS_IDLE (boot_state 384 128)) _ _)
            [x01; x02] eq_refl _ _) eq_refl)); lia.
Defined.

Lemma open_rejected_while_open_witness :
  match sh2_i2c_hal_open 384 0 (-1) sample_env (boot_state 384 128) with
  | Some (s1, _, _) =>
      open (hal 384 128 0 (-1) (-2) dfuHal) sample_env
        (run 384 128 0 (-1) (-2) sample_two_frames s1)
      = Some (run 384 128 0 (-1) (-2) sample_two_frames s1, -1, sample_env)
  | None => False
  end.
Proof.
  destruct (sh2_i2c_hal_open 384 0 (-1) sample_env (boot_state 384 128))
    as [[[s1 r] env1] |] eqn:E.
  - exact (proj2 (proj2
      (open_rejected_while_open 384 128 0 (-1) (-2) sh2Hal dfuHal sh2Hal
         sample_env sample_env env1 sample_env
         (set_isOpen true (boot_state 384 128)) (boot_state 384 128) s1 r
         sample_two_frames eq_refl eq_refl E))).
  - vm_compute in E. discriminate E.
Defined.

Lemma edge_in_idle_starts_length_read_witness :
  match dfu_i2c_hal_open 384 0 (-1) sample_env (boot_state 384 128) with
  | Some (s, _, _) =>
      i2cBusState (run 384 128 0 (-1) (-2) [] s) = BUS_IDLE ->
      outstanding
        (HAL_GPIO_EXTI_Callback GPIO_PIN_10 (run 384 128 0 (-1) (-2) [] s))
      = [mkXfer XferRx 0x50 2]
  | None => False
  end.
Proof.
  destruct (dfu_i2c_hal_open 384 0 (-1) sample_env (boot_state 384 128))
    as [[[s r] env'] |] eqn:E.
  - intros Hidle.
    exact (proj1 (proj2 (proj2 (proj2
      (edge_in_idle_starts_length_read 384 128 0 (-1) (-2) dfuHal
         GPIO_PIN_10 sample_env env' (boot_state 384 128) s r []
         eq_refl E)) Hidle))).
  - vm_compute in E. discriminate E.
Defined.

Lemma sh2_open_succeeds_without_edge_witness :
  exists s' env' pre,
    sh2_i2c_hal_open 384 0 (-1) sample_env (boot_state 384 128)
    = Some (s', 0, env')
    /\ sample_env = pre ++ env'
    /\ RESET_DELAY_US + START_DELAY_US <= advance (concat pre)
       < RESET_DELAY_US + START_DELAY_US + 2 * 1000000
    /\ inReset s' = true /\ i2cBusState s' = BUS_IDLE /\ isOpen s' = true.
Proof.
  refine (proj1 (proj1 (proj2
    (sh2_open_succeeds_without_edge 384 128 0 (-1) (-2)
       (boot_state 384 128) sample_env 1000000 1000000 eq_refl)) _ _ _) _).
  - lia.
  - unfold START_DELAY_US. lia.
  - repeat constructor; unfold paced; cbn; lia.
  - unfold RESET_DELAY_US, START_DELAY_US. cbn. lia.
Defined.

Lemma write_preempted_by_edge_witness :
  match sh2_i2c_hal_open 384 0 (-1) sample_env (boot_state 384 128) with
  | Some (s1, _, _) =>
      exists s',
        sh2_i2c_hal_write_preemptible 384 128 (-2) (Some [x01; x02]) 2
          [[]; []; [IntnEdge]; []; []; []] s1
        = Some (s', 2, [])
        /\ length (outstanding s') = 2%nat
  | None => False
  end.
Proof.
  destruct (sh2_i2c_hal_open 384 0 (-1) sample_env (boot_state 384 128))
    as [[[s1 r] env1] |] eqn:E; [| vm_compute in E; discriminate E].
  pose proof (write_preempted_by_edge 384 128 (-2) s1 [x01; x02] 2 []) as W.
  vm_compute in E. injection E as <- <- <-.
  destruct (W eq_refl eq_refl eq_refl ltac:(lia)) as (s' & H1 & _ & H3 & _).
  exists s'. split; [exact H1 |]. rewrite H3. reflexivity.
Defined.


(** ** Where the code departs from statements of the specification *)


(** [open] of the SH2 instance counts a discard of its own when the edge is
    served after it has set [BUS_IDLE] and before it has cleared the
    buffer: with a frame of 5 bytes left buffered by [close] and 7 discards
    counted, [open] returns with 8. *)
Lemma open_preempted_counts_discard :
  match
    open_preemptible 384 0 (-1) sh2Hal
      (repeat [] 14 ++ [[Tick 10000]] ++ [[]; [IntnEdge]] ++ repeat [] 6)
      (close (hal 384 128 0 (-1) (-2) sh2Hal)
         (set_rxBufLen 5 (set_discards 7 sample_idle)))
  with
  | Some (s', r, env') =>
      r = 0 /\ env' = [] /\ discards s' = 8 /\ rxBufLen s' = 0
  | None => False
  end.
Proof. vm_compute. repeat split. Qed.

(** A frame received whole while [open] waits for the first edge is
    buffered when [open] returns: the buffer then holds the new frame, not
    the one left by [close]. *)
Lemma open_returns_with_new_frame :
  match
    open_preemptible 384 0 (-1) sh2Hal
      (repeat [] 14 ++ [[Tick 10000]] ++ repeat [] 8
       ++ [[IntnEdge; I2cRxDone [x03; x00];
            IntnEdge; I2cRxDone [xaa; xbb; xcc]]])
      (close (hal 384 128 0 (-1) (-2) sh2Hal)
         (set_rxBufLen 5 (set_discards 7 sample_idle)))
  with
  | Some (s', r, env') =>
      r = 0 /\ env' = [] /\ discards s' = 7 /\ rxBufLen s' = 3
      /\ firstn 3 (rxBuf s') = [xaa; xbb; xcc]
  | None => False
  end.
Proof. vm_compute. repeat split. Qed.

(** C7 as stated fails.  Right after [open] of the DFU instance the state
    machine is idle at the bootloader's address; an edge handled there does
    not set the pending flag but starts the two-byte length read, and an
    edge delivered through the interrupt line, which is masked, sets no
    flag either. *)
Lemma edge_in_idle_dfu_counterexample :
  match dfu_i2c_hal_open 384 0 (-1) sample_env (boot_state 384 128) with
  | Some (s, r, _) =>
      r = 0 /\ i2cBusState s = BUS_IDLE /\ i2cAddr s = 0x50
      /\ outstanding s = []
      /\ rxDataReady (HAL_GPIO_EXTI_Callback GPIO_PIN_10 s) = false
      /\ outstanding (HAL_GPIO_EXTI_Callback GPIO_PIN_10 s)
         = [mkXfer XferRx 0x50 2]
      /\ i2cBusState (HAL_GPIO_EXTI_Callback GPIO_PIN_10 s) = BUS_READING_LEN
      /\ rxDataReady (hw_step 384 IntnEdge s) = false
  | None => False
  end.
Proof. vm_compute. repeat split. Qed.

(** ** Whole exchanges at work *)

Ltac by_evaluation :=
  vm_compute; repeat split; first [reflexivity | discriminate].

Lemma frame_delivered_witness :
  retval
    (snd (sh2_i2c_hal_read (-2) (repeat x00 8) 8 0
            (run 384 128 0 (-1) (-2)
               (frame_arrival 10 20 30 40 [x03; x00] [xaa; xbb; xcc])
               sample_idle)))
  = 3.
Proof.
  refine (proj1 (frame_delivered 384 128 0 (-1) (-2) sample_idle
                   10 20 30 40 x03 x00 [] [xaa; xbb; xcc] (repeat x00 8)
                   8 0 _ eq_refl _ _ _ _ _));
    by_evaluation.
Defined.

Lemma zero_length_frame_is_silent_witness :
  rxBufLen
    (run 384 128 0 (-1) (-2) (frame_arrival 10 20 30 40 [x00; x00] [])
       sample_idle)
  = 0.
Proof.
  refine (proj1 (proj2
            (zero_length_frame_is_silent 384 128 0 (-1) (-2) sample_idle
               10 20 30 40 x00 x00 [] [] [] 0 0 _ eq_refl _ _)));
    by_evaluation.
Defined.

Lemma unread_frame_replaced_witness :
  discards
    (run 384 128 0 (-1) (-2)
       (frame_arrival 10 20 30 40 [x01; x00] [xaa]
        ++ frame_arrival 10 20 30 40 [x02; x00] [xbb; xcc])
       sample_idle)
  = 1.
Proof.
  refine (proj1
            (unread_frame_replaced 384 128 0 (-1) (-2) sample_idle
               10 20 30 40 10 20 30 40 x01 x00 x02 x00
               [] [xaa] [] [xbb; xcc] (repeat x00 4) 4 0
               _ eq_refl eq_refl _ _ _ _ _ _));
    by_evaluation.
Defined.

Lemma discard_only_on_overrun_witness :
  rxBufLen
    (act 384 128 0 (-1) (-2) (Event IntnEdge) (set_rxBufLen 5 sample_idle))
  = 0.
Proof.
  refine (proj2 (proj2 (proj2 (proj2 (proj2
            (discard_only_on_overrun 384 128 0 (-1) (-2) (Event IntnEdge)
               (set_rxBufLen 5 sample_idle) _))))));
    by_evaluation.
Defined.

Lemma dfu_read_contract_witness :
  i2cBusState (fst (dfu_i2c_hal_read (-2) [] 16 0 sample_idle))
  = BUS_READING_DFU.
Proof.
  refine (proj1 (proj2 (proj2
            (proj1 (proj2 (proj2
               (dfu_read_contract (-2) sample_idle [] 16 0 _ _)))
             eq_refl eq_refl))));
    by_evaluation.
Defined.

Lemma dfu_read_round_trip_witness :
  retval
    (snd (dfu_i2c_hal_read (-2) (repeat x00 4) 4 0
            (hw_step 384 (I2cRxDone [x01; x02; x03])
               (fst (dfu_i2c_hal_read (-2) [] 3 0 sample_idle)))))
  = 3.
Proof.
  refine (proj1 (proj2 (proj2
            (dfu_read_round_trip 384 (-2) sample_idle 3 4 0 0
               [x01; x02; x03] [] (repeat x00 4)
               eq_refl eq_refl eq_refl eq_refl _ _ _ _ _))));
    by_evaluation.
Defined.

Lemma pending_cleared_only_by_read_witness :
  length
    (outstanding
       (act 384 128 0 (-1) (-2) (Client (CallRead sh2Hal [] 0 0))
          (set_rxDataReady true sample_idle)))
  = 1%nat.
Proof.
  exact (proj2 (proj2
           (pending_cleared_only_by_read 384 128 0 (-1) (-2)
              (Client (CallRead sh2Hal [] 0 0))
              (set_rxDataReady true sample_idle) eq_refl eq_refl))).
Defined.

Lemma completion_starts_nothing_witness :
  rxDataReady (hw_step 384 I2cTxDone sample_idle) = false.
Proof.
  exact (proj1 (completion_starts_nothing 384 I2cTxDone sample_idle
                  eq_refl)).
Defined.

Lemma write_until_completion_witness :
  snd (write (hal 384 128 0 (-1) (-2) dfuHal) (Some [x09]) 1
         (fst (write (hal 384 128 0 (-1) (-2) sh2Hal) (Some [x01; x02]) 2
                 sample_idle)))
  = 0.
Proof.
  refine (proj1 (proj2
            (write_until_completion 384 128 0 (-1) (-2) sh2Hal dfuHal
               sample_idle [x01; x02] [x09] 2 1 eq_refl eq_refl _ _ _)));
    by_evaluation.
Defined.

Lemma reopen_after_close_witness :
  exists s' env',
    open (hal 384 128 0 (-1) (-2) dfuHal) sample_env
      (close (hal 384 128 0 (-1) (-2) sh2Hal) sample_idle)
    = Some (s', 0, env')
    /\ isOpen s' = true /\ bus_ok s' = true.
Proof.
  refine (reopen_after_close 384 128 0 (-1) (-2) sh2Hal dfuHal 1000000
            sample_env sample_idle _ _ _).
  - lia.
  - repeat constructor; unfold paced, START_DELAY_US; cbn; lia.
  - unfold RESET_DELAY_US, START_DELAY_US. cbn. lia.
Defined.

Lemma open_sets_boot_pins_witness :
  match dfu_i2c_hal_open 384 0 (-1) sample_env (boot_state 384 128) with
  | Some (s', _, _) => pins (hw s') = mkPins true false false false false
  | None => False
  end.
Proof.
  destruct (dfu_i2c_hal_open 384 0 (-1) sample_env (boot_state 384 128))
    as [[[s' r] env'] |] eqn:E.
  - exact (proj1
      (open_sets_boot_pins 384 128 0 (-1) (-2) dfuHal sh2Hal
         sample_env env' (boot_state 384 128) s' sample_idle r eq_refl E)).
  - vm_compute in E. discriminate E.
Defined.

Lemma delay_us_waits_witness :
  exists s' env',
    delay_us 384 10000 sample_env sample_idle = Some (s', env')
    /\ 10000 <= u32 (timeNowUs s' - timeNowUs sample_idle)
       < 10000 + 1000000.
Proof.
  refine (delay_us_waits 384 10000 1000000 1000000 sample_env sample_idle
            _ _ _ eq_refl _ _).
  - lia.
  - lia.
  - lia.
  - repeat constructor; unfold paced; cbn; lia.
  - cbn. lia.
Defined.

Lemma sh2_receives_fit_buffer_witness :
  match sh2_i2c_hal_open 384 0 (-1) sample_env (boot_state 384 128) with
  | Some (s1, _, _) =>
      0 <= rxBufLen (run 384 128 0 (-1) (-2) sample_two_frames s1) <= 384
  | None => False
  end.
Proof.
  destruct (sh2_i2c_hal_open 384 0 (-1) sample_env (boot_state 384 128))
    as [[[s1 r] env1] |] eqn:E.
  - refine (proj1 (proj2
      (sh2_receives_fit_buffer 384 128 0 (-1) (-2) sh2Hal
         sample_env env1 (boot_state 384 128) s1 r sample_two_frames
         _ eq_refl eq_refl E eq_refl))).
    lia.
  - vm_compute in E. discriminate E.
Defined.

Lemma init_keeps_off_the_bus_witness :
  i2cBusState (run 384 128 0 (-1) (-2) sample_two_frames (boot_state 384 128))
  = BUS_INIT.
Proof.
  refine (proj1
            (init_keeps_off_the_bus 384 128 0 (-1) (-2) sh2Hal
               sample_two_frames (boot_state 384 128) [x01] 1
               eq_refl eq_refl _)).
  lia.
Defined.

Lemma dfu_close_keeps_bus_state_witness :
  snd (write (hal 384 128 0 (-1) (-2) sh2Hal) (Some [x01]) 1
         (close (hal 384 128 0 (-1) (-2) dfuHal) sample_idle))
  = 1.
Proof.
  refine (proj2 (proj2 (proj2 (proj2
            (dfu_close_keeps_bus_state 384 128 0 (-1) (-2) sh2Hal
               sample_idle [x01] 1 eq_refl _ _)))));
    lia.
Defined.

Lemma reset_wait_ends_on_edge_witness :
  reset_delay_us 384 START_DELAY_US ([Tick 5; IntnEdge] :: sample_env)
    (set_inReset true sample_idle)
  = Some (hw_run 384 [Tick 5; IntnEdge] (set_inReset true sample_idle),
          sample_env).
Proof.
  refine (proj1
            (reset_wait_ends_on_edge 384 START_DELAY_US [Tick 5; IntnEdge]
               sample_env (set_inReset true sample_idle)
               _ eq_refl eq_refl _ _)).
  - unfold START_DELAY_US. lia.
  - discriminate.
  - right. left. reflexivity.
Defined.

Lemma getTimeUs_measures_elapsed_witness :
  u32 (getTimeUs (hal 384 128 0 (-1) (-2) dfuHal)
         (hw_run 384 [Tick 7; IntnEdge; Tick 5] sample_idle)
       - getTimeUs (hal 384 128 0 (-1) (-2) sh2Hal) sample_idle)
  = 12.
Proof.
  exact (getTimeUs_measures_elapsed 384 128 0 (-1) (-2) dfuHal sh2Hal
           [Tick 7; IntnEdge; Tick 5] sample_idle eq_refl).
Defined.

Lemma client_calls_unmask_interrupts_witness :
  irqEXTI15_10
    (hw (fst (read (hal 384 128 0 (-1) (-2) sh2Hal) [] 0 0
                (close (hal 384 128 0 (-1) (-2) dfuHal) sample_idle))))
  = true.
Proof.
  refine (proj1 (proj1
            (client_calls_unmask_interrupts 384 128 0 (-1) (-2) sh2Hal
               (close (hal 384 128 0 (-1) (-2) dfuHal) sample_idle)
               [] [x01] 1 0 0 _))).
  lia.
Defined.
